(** * promptsandbox.io: the graph store (useStore) and updateNode

    A shallow embedding of the zustand store of [store/useStore.ts] and of
    [store/updateNode.ts].

    The store keeps JavaScript objects: the [nodes] array holds references to
    node objects, a node object holds a reference to its [data] object, and a
    data object holds a reference to its [inputs] object.  Several operations
    write to these objects in place ([node.data = ...], [node.data.response =
    ''], [inputs.updateInput(...)]), so the embedding keeps an explicit heap
    with one table per kind of object and passes it along with the store
    state. *)

From Stdlib Require Import List String Bool Arith ZArith Lia.
Import ListNotations.
Local Open Scope string_scope.
Local Open Scope list_scope.

(** ** Objects and references *)

(** A reference to an object of the JavaScript heap. *)
Definition loc := nat.

(** [array.includes(x)] on an array of strings. *)
Definition includes (xs : list string) (x : string) : bool :=
  existsb (String.eqb x) xs.

(** reactflow's [Edge], with the fields the store reads.  The handles are
    [string | null | undefined] in reactflow; [None] stands for both absent
    values, neither of which is [===] to a string. *)
Record Edge := mkEdge {
  edge_id : string;
  edge_source : string;
  edge_target : string;
  edge_sourceHandle : option string;
  edge_targetHandle : option string
}.

(** Modelled from the spec: the class of [node.data.inputs] (declared in
    nodes/types, whose source is missing).  The spec describes it as an
    ordered collection of named input slots, each holding a cached value
    sourced from an upstream node, plus the identifier of the upstream
    source. *)
Record InputSlot := mkSlot {
  slot_name : string;
  slot_source : string;
  slot_value : string
}.

Definition Inputs := list InputSlot.

(** A node's [data] object.  [LLMPromptNodeDataType & TextInputNodeDataType]
    is declared in nodes/types too; the fields kept are the ones the store and the
    spec name: the reference to the inputs object, the last response, the
    literal text of a text-input node and the prompt template of an
    llm-prompt node. *)
Record Data := mkData {
  data_inputs : loc;
  data_response : string;
  data_text : string;
  data_prompt : string
}.

(** A node object ([CustomNode], a reactflow [Node]).  [NodeTypesEnum] is a
    string enum ('textInput', 'llmPrompt', ...), kept as its string.  The
    coordinates are JavaScript numbers that the store only copies. *)
Record NodeObj := mkNode {
  node_id : string;
  node_type : string;
  node_position : Z * Z;
  node_data : loc;
  node_selected : bool
}.

(** The heap: one table per kind of object, and for the two kinds the code
    allocates ([{ ...data }] and [{ ...item }]) the next unused reference. *)
Record Heap := mkHeap {
  nodeObj : loc -> NodeObj;
  dataObj : loc -> Data;
  inputsObj : loc -> Inputs;
  nextNode : loc;
  nextData : loc
}.

(** Writing one cell of a table. *)
Definition upd {A : Type} (f : loc -> A) (l : loc) (v : A) : loc -> A :=
  fun l' => if Nat.eqb l' l then v else f l'.

Definition setNodeObj (h : Heap) (l : loc) (v : NodeObj) : Heap :=
  mkHeap (upd (nodeObj h) l v) (dataObj h) (inputsObj h) (nextNode h) (nextData h).

Definition setDataObj (h : Heap) (l : loc) (v : Data) : Heap :=
  mkHeap (nodeObj h) (upd (dataObj h) l v) (inputsObj h) (nextNode h) (nextData h).

Definition setInputsObj (h : Heap) (l : loc) (v : Inputs) : Heap :=
  mkHeap (nodeObj h) (dataObj h) (upd (inputsObj h) l v) (nextNode h) (nextData h).

(** [{ ...data }]: a new data object with the fields of [data] (a shallow
    copy: the inputs object is shared with [data]). *)
Definition spreadData (h : Heap) (data : loc) : Heap * loc :=
  (mkHeap (nodeObj h) (upd (dataObj h) (nextData h) (dataObj h data))
          (inputsObj h) (nextNode h) (S (nextData h)),
   nextData h).

(** [{ ...item }]: a new node object with the fields of [item]. *)
Definition spreadNode (h : Heap) (item : loc) : Heap * loc :=
  (mkHeap (upd (nodeObj h) (nextNode h) (nodeObj h item)) (dataObj h)
          (inputsObj h) (S (nextNode h)) (nextData h),
   nextNode h).

(** ** The store state *)

(** The fields of [RFState] that the graph operations read and write. *)
Record RFState := mkState {
  nodes : list loc;
  edges : list Edge;
  selectedNode : option loc
}.

Record World := mkWorld {
  heap : Heap;
  state : RFState
}.

(** Store actions: [get()] reads the state, [set(partial)] merges a partial
    state into it, and the callbacks also write to the heap. *)
Definition Action (A : Type) : Type := World -> A * World.

Definition ret {A : Type} (a : A) : Action A := fun w => (a, w).

Definition bind {A B : Type} (m : Action A) (k : A -> Action B) : Action B :=
  fun w => let (a, w') := m w in k a w'.

Notation "x <- m ;; k" := (bind m (fun x => k))
  (at level 61, m at next level, right associativity).
Notation "m ;;; k" := (bind m (fun _ => k))
  (at level 61, right associativity).

Definition get : Action RFState := fun w => (state w, w).

Definition readHeap : Action Heap := fun w => (heap w, w).

Definition onHeap {A : Type} (f : Heap -> Heap * A) : Action A :=
  fun w => let (h, a) := f (heap w) in (a, mkWorld h (state w)).

(** The argument of [set]: a partial state, an object with some of the keys
    of the state.  [None] is an absent key; for [selectedNode], [Some None] is
    the key present with the value [null]. *)
Record Partial := mkPartial {
  p_nodes : option (list loc);
  p_edges : option (list Edge);
  p_selectedNode : option (option loc)
}.

Definition merge (s : RFState) (p : Partial) : RFState :=
  mkState
    (match p_nodes p with Some ns => ns | None => nodes s end)
    (match p_edges p with Some es => es | None => edges s end)
    (match p_selectedNode p with Some sel => sel | None => selectedNode s end).

Definition set (p : Partial) : Action unit :=
  fun w => (tt, mkWorld (heap w) (merge (state w) p)).

Definition exec {A : Type} (m : Action A) (w : World) : World := snd (m w).
Definition eval {A : Type} (m : Action A) (w : World) : A := fst (m w).

(** ** Reading a node through the heap *)

Definition idOf (h : Heap) (n : loc) : string := node_id (nodeObj h n).
Definition dataOf (h : Heap) (n : loc) : Data := dataObj h (node_data (nodeObj h n)).
Definition inputsRefOf (h : Heap) (n : loc) : loc := data_inputs (dataOf h n).
Definition inputsOf (h : Heap) (n : loc) : Inputs := inputsObj h (inputsRefOf h n).
Definition responseOf (h : Heap) (n : loc) : string := data_response (dataOf h n).

(** ** deleteEdges, getNodes, clearAllNodeResponses *)

(** [edge.sourceHandle !== sourceHandle], with [sourceHandle] a string. *)
Definition handle_differs (eh : option string) (sourceHandle : string) : bool :=
  match eh with
  | Some s => negb (String.eqb s sourceHandle)
  | None => true
  end.

Definition deleteEdges (sourceHandle : string) : Action unit :=
  s <- get ;;
  let newEdges :=
    filter (fun edge => handle_differs (edge_sourceHandle edge) sourceHandle)
           (edges s) in
  set (mkPartial None (Some newEdges) None).

Definition getNodes (nodeIds : list string) : Action (list loc) :=
  s <- get ;;
  h <- readHeap ;;
  if Nat.eqb (List.length nodeIds) 0 then ret []
  else
    let inputNodes := filter (fun node => includes nodeIds (idOf h node)) (nodes s) in
    ret inputNodes.

(** [node.data.response = ''] on one node. *)
Definition clearResponse (h : Heap) (node : loc) : Heap :=
  let d := node_data (nodeObj h node) in
  let old := dataObj h d in
  setDataObj h d (mkData (data_inputs old) "" (data_text old) (data_prompt old)).

(** [nodes.map(cb)] and [nodes.forEach(cb)] for a callback that writes to
    the heap: the callback runs on the elements from left to right.  When the
    callback of [map] returns its argument, the new array holds the same
    references as the old one. *)
Definition forEach {St : Type} (cb : St -> loc -> St) (ns : list loc) (h : St) : St :=
  fold_left cb ns h.

Definition clearAllNodeResponses : Action unit :=
  s <- get ;;
  updatedNodes <- onHeap (fun h => (forEach clearResponse (nodes s) h, nodes s)) ;;
  set (mkPartial (Some updatedNodes) None None).

(** ** reactflow's change records *)

(** reactflow's [NodeChange]: a union tagged by [type].  The 'dimensions',
    'position', 'select' and 'remove' changes carry the [id] of the node they
    are for; 'add' and 'reset' carry an [item] and have no [id]. *)
Inductive NodeChange : Type :=
| NodeDimensions (id : string)
| NodePosition (id : string) (position : option (Z * Z))
| NodeSelect (id : string) (selected : bool)
| NodeRemove (id : string)
| NodeAdd (item : loc)
| NodeReset (item : loc).

(** reactflow's [EdgeChange]. *)
Inductive EdgeChange : Type :=
| EdgeSelect (id : string) (selected : bool)
| EdgeRemove (id : string)
| EdgeAdd (item : Edge)
| EdgeReset (item : Edge).

(** [selectedNode?.id]: [None] is [undefined]. *)
Definition selectedId (h : Heap) (selectedNode : option loc) : option string :=
  match selectedNode with
  | Some n => Some (idOf h n)
  | None => None
  end.

(** [change.type === 'remove' && change.id === selectedNode?.id] *)
Definition removesSelected (h : Heap) (selectedNode : option loc)
    (change : NodeChange) : bool :=
  match change with
  | NodeRemove id =>
      match selectedId h selectedNode with
      | Some sid => String.eqb id sid
      | None => false
      end
  | _ => false
  end.

(** ** onNodesChange, onEdgesChange, updateNode *)

Section Callbacks.

(** reactflow's [applyNodeChanges] and [applyEdgeChanges] are library
    functions, and [updateInput] is a method of the inputs class, whose
    source is missing.  The callbacks are defined for any such functions:
    [applyNodeChanges] may allocate node objects, and [updateInput], called
    on the inputs object [this] with the id of the source and the [nodes]
    array, gives the new contents of [this]. *)
Variable applyNodeChanges : list NodeChange -> list loc -> Heap -> Heap * list loc.
Variable applyEdgeChanges : list EdgeChange -> list Edge -> list Edge.
Variable updateInput : Heap -> list loc -> string -> Inputs -> Inputs.

Definition onNodesChange (changes : list NodeChange) : Action unit :=
  s <- get ;;
  h <- readHeap ;;
  let nodes := nodes s in
  let selectedNode := selectedNode s in
  let isSelectedNodeDeleted := existsb (removesSelected h selectedNode) changes in
  applied <- onHeap (applyNodeChanges changes nodes) ;;
  let update := mkPartial (Some applied) None None in
  let update :=
    if isSelectedNodeDeleted
    then mkPartial (p_nodes update) (p_edges update) (Some None)
    else update in
  set update.

Definition onEdgesChange (changes : list EdgeChange) : Action unit :=
  s <- get ;;
  set (mkPartial None (Some (applyEdgeChanges changes (edges s))) None).

(** The callback of [get().nodes.map(...)] in updateNode: on a node whose id
    is [nodeId], [node.data = { ...data }; selectedNode = node]. *)
Definition replaceData (nodeId : string) (data : loc)
    (acc : Heap * option loc) (node : loc) : Heap * option loc :=
  let (h, selectedNode) := acc in
  if String.eqb (idOf h node) nodeId then
    let (h1, d) := spreadData h data in
    let n := nodeObj h1 node in
    (setNodeObj h1 node
       (mkNode (node_id n) (node_type n) (node_position n) d (node_selected n)),
     Some node)
  else (h, selectedNode).

(** [targetNode.data.inputs.updateInput(nodeId, nodes)] *)
Definition updateTarget (nodeId : string) (nodes : list loc)
    (h : Heap) (targetNode : loc) : Heap :=
  let this := inputsRefOf h targetNode in
  setInputsObj h this (updateInput h nodes nodeId (inputsObj h this)).

Definition updateNode (nodeId : string) (data : loc) : Action unit :=
  s <- get ;;
  r <- onHeap (fun h =>
         let (h', sel) := forEach (replaceData nodeId data) (nodes s) (h, None) in
         (h', (nodes s, sel))) ;;
  let nodes := fst r in
  let selectedNode := snd r in
  s' <- get ;;
  let edges := edges s' in
  let targetEdges := filter (fun e => String.eqb (edge_source e) nodeId) edges in
  h <- readHeap ;;
  let targetNodes :=
    filter (fun n => includes (map edge_target targetEdges) (idOf h n)) nodes in
  onHeap (fun h => (forEach (updateTarget nodeId nodes) targetNodes h, tt)) ;;;
  set (mkPartial (Some nodes) None (Some selectedNode)).

End Callbacks.

(** ** The library function applyNodeChanges *)

Module ReactFlow.

(** reactflow's [applyNodeChanges(changes, nodes)] is a function of the
    reactflow package, not of this repository.  This follows the library's
    [applyChanges] on the fields of a node kept here: a batch with a 'reset'
    change gives the reset items; otherwise the items of the 'add' changes
    come first, and each element follows with the changes that carry its id
    applied, in order, to a copy of it, unless one of them is a 'remove'.
    (A 'dimensions' change writes fields that are not kept here.) *)

Definition changeId (c : NodeChange) : option string :=
  match c with
  | NodeDimensions id | NodePosition id _ | NodeSelect id _ | NodeRemove id => Some id
  | NodeAdd _ | NodeReset _ => None
  end.

Definition resetItem (c : NodeChange) : option loc :=
  match c with NodeReset item => Some item | _ => None end.

Definition addItem (c : NodeChange) : option loc :=
  match c with NodeAdd item => Some item | _ => None end.

Definition isReset (c : NodeChange) : bool :=
  match c with NodeReset _ => true | _ => false end.

(** [c.id === item.id] *)
Definition isFor (itemId : string) (c : NodeChange) : bool :=
  match changeId c with
  | Some id => String.eqb id itemId
  | None => false
  end.

(** The [switch] on one change; [None] is the [return res] of 'remove'. *)
Definition applyChange (h : Heap) (updateItem : loc) (c : NodeChange) : option Heap :=
  let n := nodeObj h updateItem in
  match c with
  | NodeSelect _ selected =>
      Some (setNodeObj h updateItem
              (mkNode (node_id n) (node_type n) (node_position n) (node_data n) selected))
  | NodePosition _ (Some position) =>
      Some (setNodeObj h updateItem
              (mkNode (node_id n) (node_type n) position (node_data n) (node_selected n)))
  | NodeRemove _ => None
  | _ => Some h
  end.

(** The [for] loop over the changes of one item: the heap after it, and
    whether the item is kept. *)
Fixpoint applyCurrent (h : Heap) (updateItem : loc) (cs : list NodeChange)
    : Heap * bool :=
  match cs with
  | [] => (h, true)
  | c :: rest =>
      match applyChange h updateItem c with
      | Some h' => applyCurrent h' updateItem rest
      | None => (h, false)
      end
  end.

(** The callback of [elements.reduce]. *)
Definition reduceItem (changes : list NodeChange)
    (acc : Heap * list loc) (item : loc) : Heap * list loc :=
  let (h, res) := acc in
  match filter (isFor (idOf h item)) changes with
  | [] => (h, res ++ [item])
  | currentChanges =>
      let (h1, updateItem) := spreadNode h item in
      let (h2, kept) := applyCurrent h1 updateItem currentChanges in
      if kept then (h2, res ++ [updateItem]) else (h2, res)
  end.

Fixpoint pick {A : Type} (f : NodeChange -> option A) (cs : list NodeChange) : list A :=
  match cs with
  | [] => []
  | c :: rest =>
      match f c with
      | Some a => a :: pick f rest
      | None => pick f rest
      end
  end.

Definition applyNodeChanges (changes : list NodeChange) (elements : list loc)
    (h : Heap) : Heap * list loc :=
  if existsb isReset changes then (h, pick resetItem changes)
  else
    let initElements := pick addItem changes in
    forEach (reduceItem changes) elements (h, initElements).

(** [applyEdgeChanges(changes, edges)] is the same [applyChanges] on the
    edges.  A 'select' change writes a field that is not kept here, so an
    edge with changes and no 'remove' among them is copied as it is. *)
Definition edgeResetItem (c : EdgeChange) : option Edge :=
  match c with EdgeReset item => Some item | _ => None end.

Definition edgeAddItem (c : EdgeChange) : option Edge :=
  match c with EdgeAdd item => Some item | _ => None end.

Definition isEdgeReset (c : EdgeChange) : bool :=
  match c with EdgeReset _ => true | _ => false end.

Definition removesEdge (edgeId : string) (c : EdgeChange) : bool :=
  match c with EdgeRemove id => String.eqb id edgeId | _ => false end.

Fixpoint pickEdges (f : EdgeChange -> option Edge) (cs : list EdgeChange)
    : list Edge :=
  match cs with
  | [] => []
  | c :: rest =>
      match f c with
      | Some a => a :: pickEdges f rest
      | None => pickEdges f rest
      end
  end.

Definition applyEdgeChanges (changes : list EdgeChange) (elements : list Edge)
    : list Edge :=
  if existsb isEdgeReset changes then pickEdges edgeResetItem changes
  else
    pickEdges edgeAddItem changes
    ++ filter (fun e => negb (existsb (removesEdge (edge_id e)) changes)) elements.

End ReactFlow.

(** ** The inputs class *)

Module InputsClass.

(** Modelled from the spec: the output value of a source node (the node
    types and the inputs class are declared in nodes/types, whose source is
    missing).
    The spec: the output of a text-input node is its literal stored text,
    that of an llm-prompt node its response; for any other source, its raw
    current data. *)
Definition outputValue (h : Heap) (n : loc) : string :=
  if String.eqb (node_type (nodeObj h n)) "llmPrompt"
  then data_response (dataOf h n)
  else data_text (dataOf h n).

Definition setSlot (sourceId value : string) (sl : InputSlot) : InputSlot :=
  if String.eqb (slot_source sl) sourceId
  then mkSlot (slot_name sl) (slot_source sl) value
  else sl.

(** Modelled from the spec: [Inputs.updateInput(nodeId, nodes)], a method of
    the inputs class, whose source is missing.  The spec: the input-update
    sets the target's recorded input value for the edge from the source to
    the source's new output value, and updates only the slot tied to that
    edge, never an unrelated slot.  The source is looked up by its id in
    [nodes]; with no such node, nothing is recorded. *)
Definition updateInput (h : Heap) (nodes : list loc) (sourceId : string)
    (this : Inputs) : Inputs :=
  match find (fun n => String.eqb (idOf h n) sourceId) nodes with
  | Some src => map (setSlot sourceId (outputValue h src)) this
  | None => this
  end.

End InputsClass.

(** ** clearGraph, onNodeDragStop, updateInputExample *)

Definition clearGraph : Action unit :=
  set (mkPartial (Some []) (Some []) (Some None)).

(** [onNodeDragStop(_, node)]: the mouse event is not read. *)
Definition onNodeDragStop (node : loc) : Action unit :=
  set (mkPartial None None (Some (Some node))).

Section InputExamples.

(** [handleInputExampleChange(inputId, value, index)] is a method of the
    inputs class, whose source is missing: called on the inputs object
    [this], it gives the new contents of [this]. *)
Variable handleInputExampleChange : string -> string -> Z -> Inputs -> Inputs.

(** The callback of [get().nodes.map(...)] in updateInputExample. *)
Definition changeExample (nodeId inputId value : string) (index : Z)
    (acc : Heap * option loc) (node : loc) : Heap * option loc :=
  let (h, selectedNode) := acc in
  if String.eqb (idOf h node) nodeId then
    let this := inputsRefOf h node in
    (setInputsObj h this
       (handleInputExampleChange inputId value index (inputsObj h this)),
     Some node)
  else (h, selectedNode).

Definition updateInputExample (nodeId inputId value : string) (index : Z)
    : Action unit :=
  s <- get ;;
  r <- onHeap (fun h =>
         let (h', sel) :=
           forEach (changeExample nodeId inputId value index) (nodes s) (h, None) in
         (h', (nodes s, sel))) ;;
  set (mkPartial (Some (fst r)) None (Some (snd r))).

End InputExamples.

(** The node that a [map] over [ns] leaves in [selectedNode]: the last one
    whose id is [nodeId]. *)
Definition lastWithId (h : Heap) (nodeId : string) (ns : list loc) : option loc :=
  find (fun n => String.eqb (idOf h n) nodeId) (rev ns).

(** ** The edge function that stores a user's API key *)

Module ApiKeyFunction.

(** The two header objects of the responses: [corsHeaders] alone, and
    [{ 'content-type': 'application/json', ...corsHeaders }]. *)
Inductive Headers : Type := CorsHeaders | JsonAndCorsHeaders.

(** A [Response]; one built with no [status] has the status 200. *)
Record Response := mkResponse {
  status : nat;
  body : string;
  headers : Headers
}.

Record User := mkUser { user_id : string }.

(** The arguments of [supabase.rpc('insert_user_api_key', ...)];
    [p_open_api_key] is [None] when the body has no [api_key]. *)
Record RpcArgs := mkRpcArgs {
  p_open_api_key : option string;
  p_secret_key : string;
  p_user_id : string
}.

(** What the handler awaits, in order. *)
Inductive Event : Type :=
| GetUser
| ReadJson
| Rpc (args : RpcArgs).

(** The handler answers, or its promise is rejected: when [req.json()] is
    rejected, and when the destructuring of its value throws. *)
Inductive Outcome : Type :=
| Responded (r : Response)
| Rejected.

(** What [const { api_key } = await req.json()] meets: a body that is not
    JSON, for which the promise is rejected; the JSON value null, on which
    the destructuring throws a TypeError; or any other JSON value, of which
    [api_key] is read ([None] is undefined, the property being absent). *)
Inductive Body : Type :=
| BodyRejected
| BodyNull
| BodyRead (api_key : option string).

Section Handler.

(** The error object of supabase, and [JSON.stringify] on it. *)
Variable Err : Type.
Variable stringify : Err -> string.

(** What the collaborators answer while one request is handled: the user of
    [supabase.auth.getUser()] ([None] is null), the body that [req.json()]
    reads, the environment variable PGSODIUM_SECRET_KEY, and the [error] of
    the rpc. *)
Record Env := mkEnv {
  env_user : option User;
  env_json : Body;
  env_secret : option string;
  env_rpc : RpcArgs -> option Err
}.

Definition handler (method : string) (env : Env) : list Event * Outcome :=
  if String.eqb method "OPTIONS" then
    ([], Responded (mkResponse 200 "ok" CorsHeaders))
  else
    match env_user env with
    | None =>
        ([GetUser], Responded (mkResponse 401 "Not authorized" JsonAndCorsHeaders))
    | Some user =>
        match env_json env with
        | BodyRejected => ([GetUser; ReadJson], Rejected)
        | BodyNull => ([GetUser; ReadJson], Rejected)
        | BodyRead api_key =>
            let args :=
              mkRpcArgs api_key
                        (match env_secret env with Some k => k | None => "" end)
                        (user_id user) in
            match env_rpc env args with
            | Some error =>
                ([GetUser; ReadJson; Rpc args],
                 Responded (mkResponse 500 (stringify error) JsonAndCorsHeaders))
            | None =>
                ([GetUser; ReadJson; Rpc args],
                 Responded (mkResponse 200 "OK" JsonAndCorsHeaders))
            end
        end
    end.

End Handler.

Arguments mkEnv {Err} env_user env_json env_secret env_rpc.
Arguments env_user {Err} e.
Arguments env_json {Err} e.
Arguments env_secret {Err} e.
Arguments env_rpc {Err} e args.
Arguments handler {Err} stringify method env.

Definition isRpc (e : Event) : bool :=
  match e with Rpc _ => true | _ => false end.

End ApiKeyFunction.

(** ** The OpenAI key prompt of the left side panel *)

Module LeftSidePanel.







End LeftSidePanel.

(** ** Properties of states *)

(** The invariant of the data model: every entry of a node's inputs has a
    corresponding inbound edge. *)
Definition backed (es : list Edge) (target : string) (sl : InputSlot) : Prop :=
  exists e, In e es /\ edge_source e = slot_source sl /\ edge_target e = target.

Definition inputs_backed (w : World) : Prop :=
  forall n sl,
    In n (nodes (state w)) ->
    In sl (inputsOf (heap w) n) ->
    backed (edges (state w)) (idOf (heap w) n) sl.

(** [n] is a direct successor of the node [nodeId]: the target of an edge
    whose source is [nodeId]. *)
Definition successor (w : World) (nodeId : string) (n : loc) : Prop :=
  exists e, In e (edges (state w)) /\ edge_source e = nodeId
            /\ edge_target e = idOf (heap w) n.

(** Every reference held by the store is to an allocated object. *)
Definition allocated (w : World) : Prop :=
  forall n, In n (nodes (state w)) ->
    n < nextNode (heap w) /\ node_data (nodeObj (heap w) n) < nextData (heap w).

(** What the spec expects of the removal of the node [id]: no edge touches
    [id] any more, and no node records [id] as the source of an input. *)
Definition removal_cascaded (id : string) (w' : World) : Prop :=
  (forall e, In e (edges (state w')) -> edge_source e <> id /\ edge_target e <> id)
  /\ (forall m sl, In m (nodes (state w')) -> In sl (inputsOf (heap w') m) ->
                  slot_source sl <> id).

(** [h'] is [h] with more node objects allocated, and nothing else changed. *)
Definition more_nodes (h h' : Heap) : Prop :=
  dataObj h' = dataObj h
  /\ inputsObj h' = inputsObj h
  /\ nextData h' = nextData h
  /\ nextNode h <= nextNode h'
  /\ forall n, n < nextNode h -> nodeObj h' n = nodeObj h n.

(** ** A small graph: a text input T feeding a prompt P feeding a prompt Q *)

Module Example.

Definition nodeT : NodeObj := mkNode "T" "textInput" (0, 0)%Z 0 false.
Definition nodeP : NodeObj := mkNode "P" "llmPrompt" (200, 0)%Z 1 false.
Definition nodeQ : NodeObj := mkNode "Q" "llmPrompt" (400, 0)%Z 2 false.

Definition dataT : Data := mkData 0 "" "Hello" "".
Definition dataP : Data := mkData 1 "Hi" "" "Say: {in}".
Definition dataQ : Data := mkData 2 "" "" "Answer: {in}".
(** A data object held by a caller, to pass to updateNode for T. *)
Definition dataT' : Data := mkData 0 "" "Bye" "".

Definition slotP : InputSlot := mkSlot "in" "T" "Hello".
Definition slotQ : InputSlot := mkSlot "in" "P" "Hi".

Definition edgeTP : Edge := mkEdge "e1" "T" "P" (Some "out") (Some "in").
Definition edgePQ : Edge := mkEdge "e2" "P" "Q" (Some "res") (Some "in").

(** The node objects 0, 1, 2, the data objects 0, 1, 2 of the nodes and 3 of
    the caller, and the inputs objects 0, 1, 2. *)
Definition h0 : Heap :=
  mkHeap (fun l => match l with 0 => nodeT | 1 => nodeP | _ => nodeQ end)
         (fun l => match l with 0 => dataT | 1 => dataP | 2 => dataQ | _ => dataT' end)
         (fun l => match l with 1 => [slotP] | 2 => [slotQ] | _ => [] end)
         3 4.

(** The nodes are T, P and Q; nothing is selected. *)
Definition w0 : World := mkWorld h0 (mkState [0; 1; 2] [edgeTP; edgePQ] None).

(** The same graph with T selected. *)
Definition w1 : World := mkWorld h0 (mkState [0; 1; 2] [edgeTP; edgePQ] (Some 0)).

End Example.

(** What [node.data.response = ''] does to a data object. *)
Definition cleared (d : Data) : Data :=
  mkData (data_inputs d) "" (data_text d) (data_prompt d).

(** Two node objects that differ at most in their [data] reference. *)
Definition same_shape (a b : NodeObj) : Prop :=
  node_id a = node_id b
  /\ node_type a = node_type b
  /\ node_position a = node_position b
  /\ node_selected a = node_selected b.

(** What the [map] of updateNode does to the heap [h], giving [h']: the nodes
    of [ns] whose id is [nodeId] get a new data object each, a copy of
    [data]; no object that existed is written, apart from the [data] field of
    these nodes. *)
Record Replaced (nodeId : string) (data : loc) (ns : list loc) (h h' : Heap)
    : Prop := mkReplaced {
  rp_inputs : inputsObj h' = inputsObj h;
  rp_nextNode : nextNode h' = nextNode h;
  rp_next : nextData h <= nextData h';
  rp_data : dataObj h' data = dataObj h data;
  rp_old : forall d, d < nextData h -> dataObj h' d = dataObj h d;
  rp_new : forall d, nextData h <= d < nextData h' -> dataObj h' d = dataObj h data;
  rp_shape : forall n, same_shape (nodeObj h' n) (nodeObj h n);
  rp_hit : forall n, In n ns -> idOf h n = nodeId ->
             nextData h <= node_data (nodeObj h' n) < nextData h';
  rp_miss : forall n, ~ In n ns \/ idOf h n <> nodeId -> nodeObj h' n = nodeObj h n
}.

(** [f] applied [k] times. *)
Fixpoint iter {A : Type} (k : nat) (f : A -> A) (x : A) : A :=
  match k with
  | 0 => x
  | S k' => iter k' f (f x)
  end.

(** The direct successors of [nodeId] among [ns], as updateNode computes
    them. *)
Definition targetNodes (nodeId : string) (es : list Edge) (h : Heap)
    (ns : list loc) : list loc :=
  filter (fun n =>
            includes (map edge_target
                          (filter (fun e => String.eqb (edge_source e) nodeId) es))
                     (idOf h n)) ns.

(** What a caller that read the nodes before a call would need in order to
    find them unchanged after it: every node object of the store, and the data
    it holds, as they were. *)
Definition caller_view_kept (w w' : World) : Prop :=
  forall n, In n (nodes (state w)) ->
    nodeObj (heap w') n = nodeObj (heap w) n
    /\ dataOf (heap w') n = dataOf (heap w) n.


(** ** Basic facts *)

Lemma upd_same {A : Type} (f : loc -> A) l v : upd f l v l = v.
Proof. unfold upd. now rewrite Nat.eqb_refl. Qed.

Lemma upd_other {A : Type} (f : loc -> A) l v l' : l' <> l -> upd f l v l' = f l'.
Proof. intros H. unfold upd. apply Nat.eqb_neq in H. now rewrite H. Qed.

Lemma includes_In xs x : includes xs x = true <-> In x xs.
Proof.
  unfold includes. rewrite existsb_exists. split.
  - intros [y [Hy E]]. apply String.eqb_eq in E. now subst.
  - intros H. exists x. split; [assumption | apply String.eqb_refl].
Qed.

Lemma handle_differs_spec eh sourceHandle :
  handle_differs eh sourceHandle = true <-> eh <> Some sourceHandle.
Proof.
  destruct eh as [s|]; simpl.
  - rewrite negb_true_iff. split.
    + intros E [= ->]. now rewrite String.eqb_refl in E.
    + intros N. apply String.eqb_neq. congruence.
  - split; [discriminate | reflexivity].
Qed.

(** ** deleteEdges *)

(** C7: deleteEdges(sourceHandle) keeps exactly the edges whose source handle
    is not [sourceHandle] (an edge is in the new collection if and only if it
    was in the old one and its source handle differs), in their order, and
    leaves the nodes, the selection and every object unchanged. *)
Theorem deleteEdges_removes_matching_edges (sourceHandle : string) (w : World) :
  let w' := exec (deleteEdges sourceHandle) w in
  (forall e, In e (edges (state w')) <->
             In e (edges (state w)) /\ edge_sourceHandle e <> Some sourceHandle)
  /\ edges (state w') =
       filter (fun e => handle_differs (edge_sourceHandle e) sourceHandle)
              (edges (state w))
  /\ nodes (state w') = nodes (state w)
  /\ selectedNode (state w') = selectedNode (state w)
  /\ heap w' = heap w.
Proof.
  cbn. split; [|repeat split].
  intros e. rewrite filter_In, handle_differs_spec. reflexivity.
Qed.

Example deleteEdges_small_graph :
  edges (state (exec (deleteEdges "res") Example.w0)) = [Example.edgeTP].
Proof. reflexivity. Qed.

(** ** getNodes *)

(** C9: getNodes(ids) returns the stored nodes whose id occurs in ids, and
    only those, in the order of the store; it returns the empty list when ids
    is empty, and it leaves the store and the heap as they were. *)
Theorem getNodes_returns_matching_nodes (nodeIds : list string) (w : World) :
  (forall n, In n (eval (getNodes nodeIds) w) <->
             In n (nodes (state w)) /\ In (idOf (heap w) n) nodeIds)
  /\ eval (getNodes nodeIds) w =
       filter (fun n => includes nodeIds (idOf (heap w) n)) (nodes (state w))
  /\ eval (getNodes []) w = []
  /\ exec (getNodes nodeIds) w = w.
Proof.
  assert (E : eval (getNodes nodeIds) w =
              filter (fun n => includes nodeIds (idOf (heap w) n)) (nodes (state w))).
  { unfold eval, getNodes, bind, get, readHeap. cbn.
    destruct nodeIds as [|i ids]; cbn; [|reflexivity].
    induction (nodes (state w)) as [|n ns IH]; [reflexivity | exact IH]. }
  split; [|split; [exact E|split]].
  - intros n. rewrite E, filter_In, includes_In. reflexivity.
  - reflexivity.
  - unfold exec, getNodes, bind, get, readHeap. cbn.
    now destruct (Nat.eqb (List.length nodeIds) 0).
Qed.

Example getNodes_small_graph :
  eval (getNodes ["Q"; "T"; "Z"]) Example.w0 = [0; 2].
Proof. reflexivity. Qed.

(** ** clearAllNodeResponses *)

Lemma forEach_clearResponse (ns : list loc) : forall h,
  let h' := forEach clearResponse ns h in
  nodeObj h' = nodeObj h
  /\ inputsObj h' = inputsObj h
  /\ forall d, dataObj h' d =
       if existsb (fun n => Nat.eqb (node_data (nodeObj h n)) d) ns
       then cleared (dataObj h d) else dataObj h d.
Proof.
  induction ns as [|n rest IH]; intros h; cbn.
  - repeat split.
  - destruct (IH (clearResponse h n)) as (Hn & Hi & Hd).
    unfold forEach in *. rewrite Hn, Hi. repeat split.
    intros d. rewrite Hd. cbn. unfold upd.
    destruct (Nat.eqb (node_data (nodeObj h n)) d) eqn:E; cbn.
    + apply Nat.eqb_eq in E. subst d. rewrite Nat.eqb_refl.
      now destruct (existsb _ rest).
    + rewrite Nat.eqb_sym, E. reflexivity.
Qed.

(** C8: clearAllNodeResponses() sets the response of every node of the store
    to the empty string and leaves the structure as it was: the nodes array,
    the edges, the selection, every node object (its id, type, position and
    data reference), the inputs reference of every data object and the
    contents of every inputs object. *)
Theorem clearAllNodeResponses_clears_responses_only (w : World) :
  let w' := exec clearAllNodeResponses w in
  Forall (fun n => responseOf (heap w') n = "") (nodes (state w'))
  /\ nodes (state w') = nodes (state w)
  /\ edges (state w') = edges (state w)
  /\ selectedNode (state w') = selectedNode (state w)
  /\ (forall n, idOf (heap w') n = idOf (heap w) n
                /\ node_type (nodeObj (heap w') n) = node_type (nodeObj (heap w) n)
                /\ node_position (nodeObj (heap w') n) = node_position (nodeObj (heap w) n)
                /\ inputsRefOf (heap w') n = inputsRefOf (heap w) n
                /\ inputsOf (heap w') n = inputsOf (heap w) n)
  /\ (forall d, data_inputs (dataObj (heap w') d) = data_inputs (dataObj (heap w) d)
                /\ data_text (dataObj (heap w') d) = data_text (dataObj (heap w) d)
                /\ data_prompt (dataObj (heap w') d) = data_prompt (dataObj (heap w) d)).
Proof.
  cbn. destruct (forEach_clearResponse (nodes (state w)) (heap w)) as (Hn & Hi & Hd).
  cbn in Hn, Hi, Hd.
  assert (Hfields : forall d,
    data_inputs (dataObj (forEach clearResponse (nodes (state w)) (heap w)) d)
      = data_inputs (dataObj (heap w) d)
    /\ data_text (dataObj (forEach clearResponse (nodes (state w)) (heap w)) d)
      = data_text (dataObj (heap w) d)
    /\ data_prompt (dataObj (forEach clearResponse (nodes (state w)) (heap w)) d)
      = data_prompt (dataObj (heap w) d)).
  { intros d. rewrite Hd. now destruct (existsb _ _). }
  split; [|repeat split; try apply Hfields].
  - apply Forall_forall. intros n Hin. unfold responseOf, dataOf.
    rewrite Hn, Hd.
    replace (existsb _ _) with true; [reflexivity|].
    symmetry. apply existsb_exists. exists n. split; [assumption|apply Nat.eqb_refl].
  - unfold idOf. now rewrite Hn.
  - now rewrite Hn.
  - now rewrite Hn.
  - unfold inputsRefOf, dataOf. rewrite Hn. apply Hfields.
  - unfold inputsOf, inputsRefOf, dataOf. rewrite Hn, Hi.
    f_equal. apply Hfields.
Qed.

Example clearAllNodeResponses_small_graph :
  responseOf (heap Example.w0) 1 = "Hi"
  /\ responseOf (heap (exec clearAllNodeResponses Example.w0)) 1 = ""
  /\ inputsOf (heap (exec clearAllNodeResponses Example.w0)) 1 = [Example.slotP].
Proof. repeat split. Qed.

(** ** onNodesChange: the selection *)

Lemma removesSelected_spec h sel changes :
  existsb (removesSelected h sel) changes = true <->
  exists id, In (NodeRemove id) changes /\ selectedId h sel = Some id.
Proof.
  rewrite existsb_exists. split.
  - intros [c [Hin Hc]]. destruct c; try discriminate. cbn in Hc.
    destruct (selectedId h sel) as [sid|]; [|discriminate].
    apply String.eqb_eq in Hc. subst. now exists sid.
  - intros [id [Hin Hs]]. exists (NodeRemove id). split; [assumption|].
    cbn. rewrite Hs. apply String.eqb_refl.
Qed.

(** C6: when the batch has a 'remove' change whose id is the id of the
    selected node, onNodesChange sets the selection to null in the one [set]
    that stores the result of applyNodeChanges as the nodes; when the batch
    has no such change, the selection is kept.  This holds whatever
    applyNodeChanges computes. *)
Theorem onNodesChange_selection
    (applyNodeChanges : list NodeChange -> list loc -> Heap -> Heap * list loc)
    (changes : list NodeChange) (w : World) :
  let w' := exec (onNodesChange applyNodeChanges changes) w in
  let selectedDeleted :=
    exists id, In (NodeRemove id) changes
               /\ selectedId (heap w) (selectedNode (state w)) = Some id in
  nodes (state w') = snd (applyNodeChanges changes (nodes (state w)) (heap w))
  /\ (selectedDeleted -> selectedNode (state w') = None)
  /\ (~ selectedDeleted -> selectedNode (state w') = selectedNode (state w)).
Proof.
  cbn. unfold exec, onNodesChange, bind, get, readHeap, onHeap, set. cbn.
  destruct (applyNodeChanges changes (nodes (state w)) (heap w)) as [h' applied].
  pose proof (removesSelected_spec (heap w) (selectedNode (state w)) changes) as S.
  destruct (existsb _ changes); cbn.
  - repeat split. intros N. exfalso. apply N. now apply S.
  - repeat split. intros D. apply S in D. discriminate.
Qed.

(** ** onNodesChange: the removal of a node *)

(** Whatever applyNodeChanges computes, onNodesChange keeps the edges. *)
Lemma onNodesChange_keeps_edges
    (applyNodeChanges : list NodeChange -> list loc -> Heap -> Heap * list loc)
    (changes : list NodeChange) (w : World) :
  edges (state (exec (onNodesChange applyNodeChanges changes) w)) = edges (state w).
Proof.
  unfold exec, onNodesChange, bind, get, readHeap, onHeap, set. cbn.
  destruct (applyNodeChanges changes (nodes (state w)) (heap w)) as [h' applied].
  now destruct (existsb _ changes).
Qed.

Lemma more_nodes_refl h : more_nodes h h.
Proof. unfold more_nodes. auto. Qed.

Lemma more_nodes_trans h1 h2 h3 :
  more_nodes h1 h2 -> more_nodes h2 h3 -> more_nodes h1 h3.
Proof.
  intros (A1 & A2 & A3 & A4 & A5) (B1 & B2 & B3 & B4 & B5).
  unfold more_nodes. rewrite B1, B2, B3. repeat split; auto; [lia|].
  intros n Hn. rewrite B5 by lia. now apply A5.
Qed.

Lemma spreadNode_more_nodes h item : more_nodes h (fst (spreadNode h item)).
Proof.
  unfold more_nodes. cbn. repeat split; auto.
  intros n Hn. apply upd_other. lia.
Qed.

(** The reduce of applyNodeChanges for the batch of one 'remove' change. *)
Lemma reduce_remove (id : string) (ns : list loc) : forall h res,
  (forall n, In n ns -> n < nextNode h) ->
  exists h',
    forEach (ReactFlow.reduceItem [NodeRemove id]) ns (h, res)
      = (h', res ++ filter (fun n => negb (String.eqb (idOf h n) id)) ns)
    /\ more_nodes h h'.
Proof.
  induction ns as [|n rest IH]; intros h res Hns.
  - exists h. cbn. rewrite app_nil_r. split; [reflexivity | apply more_nodes_refl].
  - cbn [forEach fold_left ReactFlow.reduceItem filter ReactFlow.isFor ReactFlow.changeId].
    rewrite String.eqb_sym.
    destruct (String.eqb (idOf h n) id) eqn:E; cbn [negb].
    + change (fold_left ?f ?l ?a) with (forEach f l a).
      pose proof (spreadNode_more_nodes h n) as M. cbn [spreadNode fst] in M.
      cbn [spreadNode ReactFlow.applyCurrent ReactFlow.applyChange].
      match goal with |- context [forEach _ rest (?h1, res)] =>
        destruct (IH h1 res) as (h' & Eq & M') end.
      { intros m Hm. cbn. specialize (Hns m (or_intror Hm)). lia. }
      exists h'. split.
      * rewrite Eq. f_equal. f_equal. apply filter_ext_in. intros m Hm.
        unfold idOf. cbn. rewrite upd_other; [reflexivity|].
        specialize (Hns m (or_intror Hm)). lia.
      * eapply more_nodes_trans; [exact M | exact M'].
    + change (fold_left ?f ?l ?a) with (forEach f l a).
      destruct (IH h (res ++ [n])) as (h' & Eq & M').
      { intros m Hm. apply Hns. now right. }
      exists h'. split; [|exact M'].
      rewrite Eq, <- app_assoc. reflexivity.
Qed.

(** C1, as the code has it: a node-removal change for [id], applied by
    onNodesChange, removes the nodes whose id is [id] from the nodes array and
    nothing else: the other nodes stay, in their order; the edges are the
    same, also those whose source or target is [id]; and no data object and no
    inputs object is written, so every input recorded from [id] stays. *)
Theorem onNodesChange_remove_keeps_edges_and_inputs (id : string) (w : World) :
  allocated w ->
  let w' := exec (onNodesChange ReactFlow.applyNodeChanges [NodeRemove id]) w in
  nodes (state w') =
    filter (fun n => negb (String.eqb (idOf (heap w) n) id)) (nodes (state w))
  /\ (forall n, In n (nodes (state w')) -> idOf (heap w') n <> id)
  /\ edges (state w') = edges (state w)
  /\ (forall n, In n (nodes (state w')) ->
        nodeObj (heap w') n = nodeObj (heap w) n
        /\ inputsOf (heap w') n = inputsOf (heap w) n)
  /\ dataObj (heap w') = dataObj (heap w)
  /\ inputsObj (heap w') = inputsObj (heap w).
Proof.
  intros Hw.
  destruct (reduce_remove id (nodes (state w)) (heap w) [])
    as (h' & Eq & (Md & Mi & Mnd & Mle & Mn)).
  { intros n Hn. now apply Hw. }
  cbn. unfold exec, onNodesChange, bind, get, readHeap, onHeap, set.
  unfold ReactFlow.applyNodeChanges. cbn [existsb ReactFlow.isReset ReactFlow.pick
    ReactFlow.addItem orb]. rewrite Eq. cbn [app].
  assert (Hsame : forall n,
    In n (filter (fun n => negb (String.eqb (idOf (heap w) n) id)) (nodes (state w))) ->
    nodeObj h' n = nodeObj (heap w) n).
  { intros n Hn. apply filter_In in Hn. apply Mn, Hw, Hn. }
  destruct (removesSelected _ _ _ || false)%bool; cbn; (split; [reflexivity|]);
    (split; [|split; [reflexivity|split; [|split; assumption]]]).
  all: try (intros n Hn; unfold idOf; rewrite (Hsame n Hn);
            apply filter_In in Hn; destruct Hn as [_ Hn];
            apply negb_true_iff in Hn; now apply String.eqb_neq in Hn).
  all: intros n Hn; split; [now apply Hsame|];
       unfold inputsOf, inputsRefOf, dataOf; now rewrite (Hsame n Hn), Md, Mi.
Qed.

(** C1, a run of it: T is removed from the small graph. *)
Lemma onNodesChange_remove_witness :
  allocated Example.w0
  /\ edges (state (exec (onNodesChange ReactFlow.applyNodeChanges [NodeRemove "T"])
                        Example.w0)) = [Example.edgeTP; Example.edgePQ].
Proof.
  assert (A : allocated Example.w0).
  { intros n [<-|[<-|[<-|[]]]]; cbn; lia. }
  split; [exact A|].
  exact (proj1 (proj2 (proj2
    (onNodesChange_remove_keeps_edges_and_inputs "T" Example.w0 A)))).
Defined.

(** C1, as the spec states it, fails: after the removal of T the edge from T
    to P is still stored, and P still records an input from T. *)
Lemma onNodesChange_remove_does_not_cascade :
  let w' := exec (onNodesChange ReactFlow.applyNodeChanges [NodeRemove "T"])
                 Example.w0 in
  nodes (state w') = [1; 2]
  /\ In Example.edgeTP (edges (state w'))
  /\ In Example.slotP (inputsOf (heap w') 1)
  /\ ~ removal_cascaded "T" w'.
Proof.
  cbn. repeat split; auto.
  intros [He _]. destruct (He Example.edgeTP) as [N _]; [now left|].
  now apply N.
Qed.

(** ** The inputs invariant and the removal of edges *)

Lemma backed_dec (es : list Edge) (target : string) (sl : InputSlot) :
  backed es target sl \/ ~ backed es target sl.
Proof.
  destruct (existsb (fun e => String.eqb (edge_source e) (slot_source sl)
                              && String.eqb (edge_target e) target) es) eqn:E.
  - left. apply existsb_exists in E. destruct E as [e [Hin He]].
    apply andb_true_iff in He. destruct He as [H1 H2].
    apply String.eqb_eq in H1, H2. now exists e.
  - right. intros [e (Hin & H1 & H2)].
    assert (T : existsb (fun e => String.eqb (edge_source e) (slot_source sl)
                              && String.eqb (edge_target e) target) es = true).
    { apply existsb_exists. exists e. split; [assumption|].
      rewrite H1, H2, !String.eqb_refl. reflexivity. }
    congruence.
Qed.

Lemma clearAllNodeResponses_structure (w : World) :
  let w' := exec clearAllNodeResponses w in
  nodes (state w') = nodes (state w)
  /\ edges (state w') = edges (state w)
  /\ forall n, idOf (heap w') n = idOf (heap w) n
               /\ inputsOf (heap w') n = inputsOf (heap w) n.
Proof.
  cbn. destruct (forEach_clearResponse (nodes (state w)) (heap w)) as (Hn & Hi & Hd).
  cbn in Hn, Hi, Hd. repeat split.
  - unfold idOf. now rewrite Hn.
  - unfold inputsOf, inputsRefOf, dataOf. rewrite Hn, Hi, Hd.
    now destruct (existsb _ _).
Qed.

(** C2, as the code has it: deleteEdges and onEdgesChange replace the edges
    and write nothing else, so they prune no input: after deleteEdges every
    input entry of a node is either still backed by an inbound edge, or it is
    stale and an edge from its source to the node had the deleted source
    handle.  The operations that change neither the edges nor the inputs,
    clearAllNodeResponses and getNodes, preserve the invariant. *)
Theorem edge_removal_prunes_no_input
    (applyEdgeChanges : list EdgeChange -> list Edge -> list Edge)
    (sourceHandle : string) (changes : list EdgeChange)
    (nodeIds : list string) (w : World) :
  inputs_backed w ->
  let wd := exec (deleteEdges sourceHandle) w in
  let we := exec (onEdgesChange applyEdgeChanges changes) w in
  (nodes (state wd) = nodes (state w) /\ heap wd = heap w)
  /\ (nodes (state we) = nodes (state w) /\ heap we = heap w)
  /\ (forall n sl,
        In n (nodes (state wd)) -> In sl (inputsOf (heap wd) n) ->
        backed (edges (state wd)) (idOf (heap wd) n) sl
        \/ (~ backed (edges (state wd)) (idOf (heap wd) n) sl
            /\ exists e, In e (edges (state w))
                         /\ edge_source e = slot_source sl
                         /\ edge_target e = idOf (heap w) n
                         /\ edge_sourceHandle e = Some sourceHandle))
  /\ inputs_backed (exec clearAllNodeResponses w)
  /\ inputs_backed (exec (getNodes nodeIds) w).
Proof.
  intros Inv. cbn zeta.
  split; [split; reflexivity|]. split; [split; reflexivity|]. split; [|split].
  - cbn. intros n sl Hn Hsl.
    destruct (backed_dec
      (filter (fun e => handle_differs (edge_sourceHandle e) sourceHandle)
              (edges (state w))) (idOf (heap w) n) sl) as [B|B]; [now left|].
    right. split; [exact B|].
    destruct (Inv n sl Hn Hsl) as [e (Hin & H1 & H2)].
    exists e. repeat split; try assumption.
    destruct (handle_differs (edge_sourceHandle e) sourceHandle) eqn:D.
    + exfalso. apply B. exists e. repeat split; try assumption.
      apply filter_In. now split.
    + destruct (edge_sourceHandle e) as [s|]; [|discriminate]. cbn in D.
      apply negb_false_iff, String.eqb_eq in D. now subst.
  - destruct (clearAllNodeResponses_structure w) as (Hn & He & Hio).
    cbn zeta in Hn, He, Hio.
    intros n sl Hin Hsl. rewrite Hn in Hin.
    destruct (Hio n) as [Hid Hinp]. rewrite Hinp in Hsl. rewrite Hid, He.
    now apply Inv.
  - replace (exec (getNodes nodeIds) w) with w; [exact Inv|].
    unfold exec, getNodes, bind, get, readHeap. cbn.
    now destruct (Nat.eqb (List.length nodeIds) 0).
Qed.

Lemma example_inputs_backed : inputs_backed Example.w0.
Proof.
  intros n sl [<-|[<-|[<-|[]]]] Hsl; cbn in Hsl; [contradiction| |].
  - destruct Hsl as [<-|[]]. exists Example.edgeTP. cbn. auto.
  - destruct Hsl as [<-|[]]. exists Example.edgePQ. cbn. auto.
Qed.

(** C2, a run of it: the invariant holds of the small graph, and deleteEdges
    leaves its nodes alone. *)
Lemma edge_removal_witness :
  inputs_backed Example.w0
  /\ nodes (state (exec (deleteEdges "out") Example.w0)) = [0; 1; 2].
Proof.
  split; [exact example_inputs_backed|].
  exact (proj1 (proj1
    (edge_removal_prunes_no_input ReactFlow.applyEdgeChanges "out"
       [EdgeRemove "e1"] [] Example.w0
       example_inputs_backed))).
Defined.

(** C2, as the spec states it, fails: the invariant holds of the small graph,
    and after deleteEdges('out'), as after onEdgesChange with the 'remove'
    change of the edge, P still records its input from T, with no edge
    left. *)
Lemma edge_removal_leaves_stale_input :
  let wd := exec (deleteEdges "out") Example.w0 in
  let we := exec (onEdgesChange ReactFlow.applyEdgeChanges [EdgeRemove "e1"])
                 Example.w0 in
  inputs_backed Example.w0
  /\ edges (state wd) = [Example.edgePQ] /\ In Example.slotP (inputsOf (heap wd) 1)
  /\ ~ inputs_backed wd
  /\ edges (state we) = [Example.edgePQ] /\ In Example.slotP (inputsOf (heap we) 1)
  /\ ~ inputs_backed we.
Proof.
  split; [exact example_inputs_backed|]. cbn.
  repeat split; auto; intros Inv;
    (destruct (Inv 1 Example.slotP) as [e ([<-|[]] & Hs & _)];
       [cbn; auto | cbn; auto | discriminate]).
Qed.

(** ** updateNode: the replacement of the data *)

Lemma same_shape_refl a : same_shape a a.
Proof. unfold same_shape. auto. Qed.

Lemma Replaced_nil nodeId data h : Replaced nodeId data [] h h.
Proof.
  constructor; auto using same_shape_refl.
  - intros d Hd. lia.
  - intros n [].
Qed.

Lemma replaceData_spec (nodeId : string) (data : loc) (ns : list loc) :
  forall h sel,
    Replaced nodeId data ns h (fst (forEach (replaceData nodeId data) ns (h, sel))).
Proof.
  induction ns as [|n0 rest IH]; intros h sel.
  - apply Replaced_nil.
  - cbn [forEach fold_left replaceData].
    change (fold_left ?f ?l ?a) with (forEach f l a).
    destruct (String.eqb (idOf h n0) nodeId) eqn:E.
    + cbn [spreadData].
      match goal with |- context [forEach _ rest (?h2, ?s2)] =>
        specialize (IH h2 s2); set (hh := h2) in * end.
      assert (Hid : forall n, idOf hh n = idOf h n).
      { intros n. unfold idOf, hh. cbn. unfold upd.
        destruct (Nat.eqb n n0) eqn:En; [|reflexivity].
        apply Nat.eqb_eq in En. now subst. }
      assert (Hdd : forall d, d <> nextData h -> dataObj hh d = dataObj h d).
      { intros d Hd. unfold hh. cbn. now apply upd_other. }
      assert (Hdata : dataObj hh data = dataObj h data).
      { unfold hh. cbn. unfold upd. now destruct (Nat.eqb data (nextData h)). }
      destruct IH as [I1 I2 I3 I4 I5 I6 I7 I8 I9].
      change (nextData hh) with (S (nextData h)) in *.
      constructor.
      * rewrite I1. reflexivity.
      * rewrite I2. reflexivity.
      * lia.
      * now rewrite I4.
      * intros d Hd. rewrite I5 by lia. apply Hdd. lia.
      * intros d Hd. destruct (Nat.eq_dec d (nextData h)) as [->|Hne].
        -- rewrite I5 by lia. unfold hh. cbn. apply upd_same.
        -- rewrite I6 by lia. exact Hdata.
      * intros n. destruct (I7 n) as (A & B & C & D).
        unfold same_shape. rewrite A, B, C, D. unfold hh. cbn. unfold upd.
        destruct (Nat.eqb n n0) eqn:En; [|apply same_shape_refl].
        apply Nat.eqb_eq in En. subst. cbn. unfold same_shape. auto.
      * intros n Hin Hn.
        destruct (in_dec Nat.eq_dec n rest) as [Hr|Hr].
        -- specialize (I8 n Hr). rewrite Hid in I8. destruct (I8 Hn) as [Ha Hb].
           split; [|exact Hb].
           apply Nat.le_trans with (2 := Ha). apply Nat.le_succ_diag_r.
        -- rewrite I9 by now left.
           destruct Hin as [<-|Hin]; [|contradiction].
           replace (node_data (nodeObj hh n0)) with (nextData h); [lia|].
           unfold hh. cbn. now rewrite upd_same.
      * intros n Hn.
        assert (Hn0 : n <> n0).
        { intros ->. apply String.eqb_eq in E. destruct Hn as [Hn|Hn].
          - apply Hn. now left.
          - contradiction. }
        rewrite I9.
        -- unfold hh. cbn. now apply upd_other.
        -- rewrite Hid. destruct Hn as [Hn|Hn]; [left|now right].
           intros Hr. apply Hn. now right.
    + specialize (IH h sel). destruct IH as [I1 I2 I3 I4 I5 I6 I7 I8 I9].
      apply String.eqb_neq in E.
      constructor; auto.
      * intros n [<-|Hin] Hn; [contradiction|]. now apply I8.
      * intros n Hn. apply I9. destruct Hn as [Hn|Hn]; [left|now right].
        intros Hr. apply Hn. now right.
Qed.

(** With no node of the id, the [map] writes nothing and selects nothing. *)
Lemma replaceData_no_match (nodeId : string) (data : loc) (ns : list loc) :
  forall h sel,
    (forall n, In n ns -> idOf h n <> nodeId) ->
    forEach (replaceData nodeId data) ns (h, sel) = (h, sel).
Proof.
  induction ns as [|n0 rest IH]; intros h sel Hns; [reflexivity|].
  cbn [forEach fold_left replaceData].
  change (fold_left ?f ?l ?a) with (forEach f l a).
  destruct (String.eqb (idOf h n0) nodeId) eqn:E.
  - apply String.eqb_eq in E. exfalso. apply (Hns n0); [now left | exact E].
  - apply IH. intros n Hn. apply Hns. now right.
Qed.

(** updateNode, run: the [map] over the nodes, then the [forEach] over the
    direct successors, then the one [set]. *)
Lemma updateNode_exec (updateInput : Heap -> list loc -> string -> Inputs -> Inputs)
    (nodeId : string) (data : loc) (w : World) :
  exec (updateNode updateInput nodeId data) w =
    let r := forEach (replaceData nodeId data) (nodes (state w)) (heap w, None) in
    let ts := targetNodes nodeId (edges (state w)) (fst r) (nodes (state w)) in
    mkWorld (forEach (updateTarget updateInput nodeId (nodes (state w))) ts (fst r))
            (mkState (nodes (state w)) (edges (state w)) (snd r)).
Proof.
  unfold exec, updateNode, bind, get, readHeap, onHeap, set, targetNodes.
  destruct (forEach (replaceData nodeId data) (nodes (state w)) (heap w, None))
    as [h1 sel].
  reflexivity.
Qed.

(** ** updateNode: the update of the successors *)

(** The [forEach] over the targets writes inputs objects only, and only those
    of the targets. *)
Lemma updateTargets_frame (updateInput : Heap -> list loc -> string -> Inputs -> Inputs)
    (nodeId : string) (ns ts : list loc) : forall h,
  let h' := forEach (updateTarget updateInput nodeId ns) ts h in
  nodeObj h' = nodeObj h
  /\ dataObj h' = dataObj h
  /\ nextNode h' = nextNode h
  /\ nextData h' = nextData h
  /\ forall i, ~ In i (map (inputsRefOf h) ts) -> inputsObj h' i = inputsObj h i.
Proof.
  induction ts as [|t rest IH]; intros h; cbn zeta.
  - repeat split.
  - cbn [forEach fold_left]. change (fold_left ?f ?l ?a) with (forEach f l a).
    destruct (IH (updateTarget updateInput nodeId ns h t)) as (A & B & C & D & E).
    rewrite A, B, C, D. repeat split.
    intros i Hi. rewrite E.
    + cbn. apply upd_other. intros ->. apply Hi. now left.
    + intros Hin. apply Hi. right. exact Hin.
Qed.

Lemma targetNodes_In nodeId es h ns n :
  In n (targetNodes nodeId es h ns) <->
  In n ns /\ exists e, In e es /\ edge_source e = nodeId /\ edge_target e = idOf h n.
Proof.
  unfold targetNodes. rewrite filter_In, includes_In, in_map_iff.
  split; intros [Hn H]; (split; [exact Hn|]).
  - destruct H as [e [Ht He]]. apply filter_In in He. destruct He as [He Hs].
    apply String.eqb_eq in Hs. now exists e.
  - destruct H as [e (He & Hs & Ht)]. exists e. split; [now symmetry|].
    apply filter_In. split; [assumption|]. now apply String.eqb_eq.
Qed.

Lemma targetNodes_no_edges nodeId es h ns :
  (forall e, In e es -> edge_source e <> nodeId) ->
  targetNodes nodeId es h ns = [].
Proof.
  intros H. destruct (targetNodes nodeId es h ns) as [|n l] eqn:E; [reflexivity|].
  assert (Hin : In n (targetNodes nodeId es h ns)) by (rewrite E; now left).
  apply targetNodes_In in Hin. destruct Hin as [_ [e (He & Hs & _)]].
  now apply H in He.
Qed.

Lemma targetNodes_ext nodeId es h h' ns :
  (forall n, idOf h' n = idOf h n) ->
  targetNodes nodeId es h' ns = targetNodes nodeId es h ns.
Proof.
  intros Hid. unfold targetNodes. apply filter_ext. intros n. now rewrite Hid.
Qed.

(** ** updateNode with an id that no node has *)

(** C10: when no node of the store has the id [nodeId], updateNode(nodeId,
    data) sets the selection to null, whatever it was; the nodes array and the
    edges are kept, and no node object and no data object is written, so every
    node has the data it had.  (The inputs objects of the targets of edges
    whose source is [nodeId] are still passed to updateInput; with no such
    edge, the whole heap is as it was.) *)
Theorem updateNode_unknown_id_clears_selection
    (updateInput : Heap -> list loc -> string -> Inputs -> Inputs)
    (nodeId : string) (data : loc) (w : World) :
  (forall n, In n (nodes (state w)) -> idOf (heap w) n <> nodeId) ->
  let w' := exec (updateNode updateInput nodeId data) w in
  selectedNode (state w') = None
  /\ nodes (state w') = nodes (state w)
  /\ edges (state w') = edges (state w)
  /\ nodeObj (heap w') = nodeObj (heap w)
  /\ dataObj (heap w') = dataObj (heap w)
  /\ (forall n, dataOf (heap w') n = dataOf (heap w) n)
  /\ ((forall e, In e (edges (state w)) -> edge_source e <> nodeId) ->
      heap w' = heap w).
Proof.
  intros Hno. cbn zeta. rewrite updateNode_exec.
  rewrite (replaceData_no_match nodeId data (nodes (state w)) (heap w) None Hno).
  cbn [fst snd heap state nodes edges selectedNode].
  destruct (updateTargets_frame updateInput nodeId (nodes (state w))
              (targetNodes nodeId (edges (state w)) (heap w) (nodes (state w)))
              (heap w)) as (A & B & _).
  repeat split; try assumption.
  - intros n. unfold dataOf. now rewrite A, B.
  - intros He. now rewrite (targetNodes_no_edges nodeId (edges (state w)) (heap w) (nodes (state w)) He).
Qed.

(** C10, a run of it: T is selected, and updateNode is called for an id that
    no node has. *)
Lemma updateNode_unknown_id_witness :
  selectedNode (state Example.w1) = Some 0
  /\ selectedNode (state (exec (updateNode InputsClass.updateInput "X" 3)
                               Example.w1)) = None.
Proof.
  split; [reflexivity|].
  refine (proj1 (updateNode_unknown_id_clears_selection
                   InputsClass.updateInput "X" 3 Example.w1 _)).
  intros n [<-|[<-|[<-|[]]]]; cbn; discriminate.
Defined.

(** ** updateNode: only the direct successors *)

Lemma successor_targetNodes nodeId w h1 t :
  (forall n, idOf h1 n = idOf (heap w) n) ->
  In t (targetNodes nodeId (edges (state w)) h1 (nodes (state w))) ->
  In t (nodes (state w)) /\ successor w nodeId t.
Proof.
  intros Hid Ht. apply targetNodes_In in Ht. destruct Ht as [Hn [e (He & Hs & Ht)]].
  split; [exact Hn|]. exists e. rewrite <- Hid. auto.
Qed.





(** The same call does update P, the direct successor of T. *)
Example updateNode_propagates_to_successor :
  inputsOf (heap Example.w0) 1 = [mkSlot "in" "T" "Hello"]
  /\ inputsOf (heap (exec (updateNode InputsClass.updateInput "T" 3) Example.w0)) 1
     = [mkSlot "in" "T" "Bye"].
Proof. split; reflexivity. Qed.

(** ** updateNode: the node is written in place *)

(** C4, as the code has it: updateNode(nodeId, data) gives every node of the
    id a data object that did not exist before the call, a copy of [data], and
    writes no data object that existed; but the node object itself is written
    in place: the nodes array holds the same references, and the node object
    that a caller read before the call holds the new data after it.  The other
    node objects are as they were. *)
Theorem updateNode_new_data_same_node
    (updateInput : Heap -> list loc -> string -> Inputs -> Inputs)
    (nodeId : string) (data : loc) (w : World) :
  let w' := exec (updateNode updateInput nodeId data) w in
  nodes (state w') = nodes (state w)
  /\ (forall d, d < nextData (heap w) -> dataObj (heap w') d = dataObj (heap w) d)
  /\ (forall n, In n (nodes (state w)) -> idOf (heap w) n = nodeId ->
        nextData (heap w) <= node_data (nodeObj (heap w') n)
        /\ dataOf (heap w') n = dataObj (heap w) data
        /\ same_shape (nodeObj (heap w') n) (nodeObj (heap w) n)
        /\ (node_data (nodeObj (heap w) n) < nextData (heap w) ->
            nodeObj (heap w') n <> nodeObj (heap w) n))
  /\ (forall n, idOf (heap w) n <> nodeId -> nodeObj (heap w') n = nodeObj (heap w) n).
Proof.
  cbn zeta. rewrite updateNode_exec. cbn zeta.
  pose proof (replaceData_spec nodeId data (nodes (state w)) (heap w) None) as R.
  set (h1 := fst (forEach (replaceData nodeId data) (nodes (state w)) (heap w, None))) in *.
  set (ts := targetNodes nodeId (edges (state w)) h1 (nodes (state w))).
  destruct (updateTargets_frame updateInput nodeId (nodes (state w)) ts h1)
    as (A & B & _ & _ & _).
  cbn [heap state nodes]. rewrite A, B.
  split; [reflexivity|]. split; [exact (rp_old _ _ _ _ _ R)|]. split.
  - intros n Hn Hid. pose proof (rp_hit _ _ _ _ _ R n Hn Hid) as Hfresh.
    split; [apply Hfresh|]. split; [|split].
    + unfold dataOf. rewrite A, B. now apply (rp_new _ _ _ _ _ R).
    + apply (rp_shape _ _ _ _ _ R).
    + intros Hd E. rewrite E in Hfresh. lia.
  - intros n Hn. apply (rp_miss _ _ _ _ _ R). now right.
Qed.

(** C4, a run of it: updateNode for T with the data object 3. *)
Lemma updateNode_new_data_witness :
  dataOf (heap (exec (updateNode InputsClass.updateInput "T" 3) Example.w0)) 0
    = Example.dataT'.
Proof.
  refine (proj1 (proj2 (proj1 (proj2 (proj2
    (updateNode_new_data_same_node InputsClass.updateInput "T" 3 Example.w0)))
    0 _ _))).
  - cbn. auto.
  - reflexivity.
Defined.

(** C4, as the spec states it, fails: a caller that holds the node object of T
    finds another data in it after updateNode, and the inputs object of P has
    been written too. *)
Lemma updateNode_writes_node_in_place :
  let w' := exec (updateNode InputsClass.updateInput "T" 3) Example.w0 in
  nodes (state w') = nodes (state Example.w0)
  /\ nodeObj (heap Example.w0) 0 = Example.nodeT
  /\ nodeObj (heap w') 0 = mkNode "T" "textInput" (0, 0)%Z 4 false
  /\ inputsObj (heap Example.w0) 1 = [mkSlot "in" "T" "Hello"]
  /\ inputsObj (heap w') 1 = [mkSlot "in" "T" "Bye"]
  /\ ~ caller_view_kept Example.w0 w'.
Proof.
  cbn. repeat split.
  intros K. destruct (K 0) as [E _]; [cbn; auto|]. discriminate.
Qed.

(** ** updateNode twice *)

Lemma iter_idem {A : Type} (g : A -> A) (k : nat) :
  (forall x, g (g x) = g x) ->
  forall x, iter k g (iter k g x) = iter k g x.
Proof.
  intros Hg.
  assert (One : forall j x, iter (S j) g x = g x).
  { induction j as [|j IH]; intros x; [reflexivity|].
    change (iter (S (S j)) g x) with (iter (S j) g (g x)).
    now rewrite IH, Hg. }
  destruct k as [|k]; intros x; [reflexivity|].
  now rewrite !One, Hg.
Qed.

(** With an updateInput that computes the same function [g] all along, each
    inputs object gets [g] once for each target that holds it. *)
Lemma updateTargets_iter (updateInput : Heap -> list loc -> string -> Inputs -> Inputs)
    (nodeId : string) (ns : list loc) (g : Inputs -> Inputs) (ts : list loc) :
  forall h,
    (forall hx this, nodeObj hx = nodeObj h -> dataObj hx = dataObj h ->
                     updateInput hx ns nodeId this = g this) ->
    forall i,
      inputsObj (forEach (updateTarget updateInput nodeId ns) ts h) i =
      iter (count_occ Nat.eq_dec (map (inputsRefOf h) ts) i) g (inputsObj h i).
Proof.
  induction ts as [|t rest IH]; intros h Hg i; [reflexivity|].
  cbn [forEach fold_left]. change (fold_left ?f ?l ?a) with (forEach f l a).
  rewrite IH by (intros hx this Hn Hd; now apply Hg).
  cbn [map]. change (inputsRefOf (updateTarget updateInput nodeId ns h t))
    with (inputsRefOf h).
  cbn [updateTarget setInputsObj inputsObj]. unfold upd.
  rewrite Hg by reflexivity.
  destruct (Nat.eq_dec (inputsRefOf h t) i) as [E|E].
  - rewrite (count_occ_cons_eq Nat.eq_dec _ E). subst i.
    now rewrite Nat.eqb_refl.
  - rewrite (count_occ_cons_neq Nat.eq_dec _ E).
    replace (Nat.eqb i (inputsRefOf h t)) with false; [reflexivity|].
    symmetry. apply Nat.eqb_neq. congruence.
Qed.

Lemma setSlot_idem sourceId value sl :
  InputsClass.setSlot sourceId value (InputsClass.setSlot sourceId value sl)
  = InputsClass.setSlot sourceId value sl.
Proof.
  unfold InputsClass.setSlot.
  destruct (String.eqb (slot_source sl) sourceId) eqn:E; cbn; now rewrite E.
Qed.

Lemma updateInput_idem h ns sourceId this :
  InputsClass.updateInput h ns sourceId (InputsClass.updateInput h ns sourceId this)
  = InputsClass.updateInput h ns sourceId this.
Proof.
  unfold InputsClass.updateInput. destruct (find _ ns); [|reflexivity].
  rewrite map_map. apply map_ext. intros sl. apply setSlot_idem.
Qed.

Lemma find_pointwise {A : Type} (p q : A -> bool) (l : list A) :
  (forall x, p x = q x) -> find p l = find q l.
Proof.
  intros H. induction l as [|x l IH]; [reflexivity|].
  cbn. now rewrite H, IH.
Qed.

(** updateInput reads the ids of the nodes and the output value of the
    source, and nothing else. *)
Lemma updateInput_ext h h' ns sourceId :
  (forall n, idOf h' n = idOf h n) ->
  (forall n, In n ns -> idOf h n = sourceId ->
             InputsClass.outputValue h' n = InputsClass.outputValue h n) ->
  forall this,
    InputsClass.updateInput h' ns sourceId this
    = InputsClass.updateInput h ns sourceId this.
Proof.
  intros Hid Hout this. unfold InputsClass.updateInput.
  rewrite (find_pointwise (fun n => String.eqb (idOf h' n) sourceId)
                          (fun n => String.eqb (idOf h n) sourceId))
    by (intros n; now rewrite Hid).
  destruct (find _ ns) as [src|] eqn:F; [|reflexivity].
  apply find_some in F. destruct F as [Hin Hs]. apply String.eqb_eq in Hs.
  now rewrite Hout.
Qed.

(** The [map] of a second updateNode(nodeId, data), run on the heap that the
    first one left, gives every node the data it had after the first [map]. *)
Lemma second_replace_same_data nodeId data ns h0 h1r H1 h2r :
  (forall n, In n ns -> node_data (nodeObj h0 n) < nextData h0) ->
  Replaced nodeId data ns h0 h1r ->
  nodeObj H1 = nodeObj h1r -> dataObj H1 = dataObj h1r -> nextData H1 = nextData h1r ->
  Replaced nodeId data ns H1 h2r ->
  (forall n, same_shape (nodeObj h2r n) (nodeObj h1r n))
  /\ (forall n, In n ns -> dataOf h2r n = dataOf h1r n).
Proof.
  intros Hal R1 An Ad Ax R2.
  assert (Hsh : forall n, same_shape (nodeObj h2r n) (nodeObj h1r n)).
  { intros n. rewrite <- An. apply (rp_shape _ _ _ _ _ R2). }
  split; [exact Hsh|].
  intros n Hn. unfold dataOf.
  assert (Hid1 : idOf H1 n = idOf h0 n).
  { unfold idOf. rewrite An. apply (rp_shape _ _ _ _ _ R1 n). }
  destruct (String.eqb (idOf h0 n) nodeId) eqn:E.
  - apply String.eqb_eq in E.
    pose proof (rp_hit _ _ _ _ _ R1 n Hn E) as F1.
    assert (E' : idOf H1 n = nodeId) by congruence.
    pose proof (rp_hit _ _ _ _ _ R2 n Hn E') as F2.
    rewrite (rp_new _ _ _ _ _ R2) by exact F2.
    rewrite (rp_new _ _ _ _ _ R1) by exact F1.
    rewrite Ad. apply (rp_data _ _ _ _ _ R1).
  - apply String.eqb_neq in E.
    assert (E' : idOf H1 n <> nodeId) by congruence.
    rewrite (rp_miss _ _ _ _ _ R2 n) by now right.
    rewrite An.
    rewrite (rp_miss _ _ _ _ _ R1 n) by now right.
    pose proof (Hal n Hn) as Hd. pose proof (rp_next _ _ _ _ _ R1) as Hle.
    rewrite (rp_old _ _ _ _ _ R2) by lia.
    now rewrite Ad.
Qed.

Lemma targetNodes_incl nodeId es h ns t :
  In t (targetNodes nodeId es h ns) -> In t ns.
Proof. intros H. now apply targetNodes_In in H. Qed.

(** C5: with the updateInput of the spec, and in a store whose references are
    to allocated objects, a second updateNode(nodeId, data) leaves every
    inputs object with the contents that the first one gave it, and every
    node, the successors of [nodeId] among them, with the inputs object it
    had after the first: the recorded inputs after two calls are those after
    one. *)
Theorem updateNode_twice_same_inputs (nodeId : string) (data : loc) (w : World) :
  allocated w ->
  let w1 := exec (updateNode InputsClass.updateInput nodeId data) w in
  let w2 := exec (updateNode InputsClass.updateInput nodeId data) w1 in
  (forall i, inputsObj (heap w2) i = inputsObj (heap w1) i)
  /\ (forall n, In n (nodes (state w)) ->
        inputsRefOf (heap w2) n = inputsRefOf (heap w1) n
        /\ inputsOf (heap w2) n = inputsOf (heap w1) n).
Proof.
  intros Hal. cbn zeta.
  rewrite (updateNode_exec _ nodeId data (exec _ w)).
  rewrite (updateNode_exec _ nodeId data w). cbn zeta. cbn [heap state nodes edges].
  set (ns := nodes (state w)). set (es := edges (state w)).
  pose proof (replaceData_spec nodeId data ns (heap w) None) as R1.
  set (h1r := fst (forEach (replaceData nodeId data) ns (heap w, None))) in *.
  set (ts := targetNodes nodeId es h1r ns).
  set (ut := updateTarget InputsClass.updateInput nodeId ns).
  set (H1 := forEach ut ts h1r).
  pose proof (replaceData_spec nodeId data ns H1 None) as R2.
  set (h2r := fst (forEach (replaceData nodeId data) ns (H1, None))) in *.
  destruct (updateTargets_frame InputsClass.updateInput nodeId ns ts h1r)
    as (An & Ad & _ & Ax & _).
  fold ut in An, Ad, Ax. fold H1 in An, Ad, Ax.
  destruct (second_replace_same_data nodeId data ns (heap w) h1r H1 h2r)
    as [Hsh Hdata]; try assumption.
  { intros n Hn. now apply Hal. }
  assert (Hid : forall n, idOf h2r n = idOf h1r n).
  { intros n. apply (Hsh n). }
  rewrite (targetNodes_ext nodeId es h1r h2r ns Hid). fold ts.
  set (H2 := forEach ut ts h2r).
  destruct (updateTargets_frame InputsClass.updateInput nodeId ns ts h2r)
    as (Bn & Bd & _ & _ & _).
  fold ut in Bn, Bd. fold H2 in Bn, Bd.
  assert (Href : forall n, In n ns -> inputsRefOf h2r n = inputsRefOf h1r n).
  { intros n Hn. unfold inputsRefOf. now rewrite Hdata. }
  set (g := InputsClass.updateInput h1r ns nodeId).
  assert (G1 : forall hx this, nodeObj hx = nodeObj h1r -> dataObj hx = dataObj h1r ->
                 InputsClass.updateInput hx ns nodeId this = g this).
  { intros hx this En Ed. apply updateInput_ext.
    - intros n. unfold idOf. now rewrite En.
    - intros n _ _. unfold InputsClass.outputValue, dataOf. now rewrite En, Ed. }
  assert (G2 : forall hx this, nodeObj hx = nodeObj h2r -> dataObj hx = dataObj h2r ->
                 InputsClass.updateInput hx ns nodeId this = g this).
  { intros hx this En Ed. apply updateInput_ext.
    - intros n. unfold idOf. rewrite En. apply Hid.
    - intros n Hn _. unfold InputsClass.outputValue.
      replace (dataOf hx n) with (dataOf h2r n)
        by (unfold dataOf; now rewrite En, Ed).
      rewrite (Hdata n Hn), En.
      destruct (Hsh n) as (_ & Ety & _). now rewrite Ety. }
  assert (Hobj : forall i, inputsObj H2 i = inputsObj H1 i).
  { intros i. unfold H2, H1, ut.
    rewrite (updateTargets_iter InputsClass.updateInput nodeId ns g ts h2r G2).
    rewrite (updateTargets_iter InputsClass.updateInput nodeId ns g ts h1r G1).
    rewrite (map_ext_in (inputsRefOf h2r) (inputsRefOf h1r))
      by (intros t Ht; apply Href; now apply targetNodes_incl in Ht).
    rewrite (rp_inputs _ _ _ _ _ R2).
    fold ut. fold H1.
    unfold H1 at 1, ut.
    rewrite (updateTargets_iter InputsClass.updateInput nodeId ns g ts h1r G1).
    apply iter_idem. intros x. apply updateInput_idem. }
  split; [exact Hobj|].
  intros n Hn.
  assert (Hr : inputsRefOf H2 n = inputsRefOf H1 n).
  { unfold inputsRefOf, dataOf at 1 2. rewrite Bn, Bd, An, Ad.
    apply (Href n Hn). }
  split; [exact Hr|]. unfold inputsOf. now rewrite Hr, Hobj.
Qed.

Lemma example_allocated : allocated Example.w0.
Proof. intros n [<-|[<-|[<-|[]]]]; cbn; lia. Qed.

(** C5, a run of it: updateNode for T, twice, in the small graph; the inputs
    object of P after the second call is the one after the first. *)
Lemma updateNode_twice_witness :
  allocated Example.w0
  /\ inputsObj (heap (exec (updateNode InputsClass.updateInput "T" 3)
                       (exec (updateNode InputsClass.updateInput "T" 3) Example.w0))) 1
     = inputsObj (heap (exec (updateNode InputsClass.updateInput "T" 3) Example.w0)) 1.
Proof.
  split; [exact example_allocated|].
  exact (proj1 (updateNode_twice_same_inputs "T" 3 Example.w0 example_allocated) 1).
Defined.

(** C6, two runs of it, with T selected: the removal of T clears the
    selection, the removal of P keeps it. *)
Lemma onNodesChange_selection_witness :
  selectedNode (state (exec (onNodesChange ReactFlow.applyNodeChanges [NodeRemove "T"])
                            Example.w1)) = None
  /\ selectedNode (state (exec (onNodesChange ReactFlow.applyNodeChanges [NodeRemove "P"])
                               Example.w1)) = Some 0.
Proof.
  split.
  - refine (proj1 (proj2 (onNodesChange_selection ReactFlow.applyNodeChanges
                            [NodeRemove "T"] Example.w1)) _).
    exists "T". split; [now left | reflexivity].
  - refine (proj2 (proj2 (onNodesChange_selection ReactFlow.applyNodeChanges
                            [NodeRemove "P"] Example.w1)) _).
    intros [id [[E|[]] Hs]]. cbn in Hs. congruence.
Defined.

(** * Further properties of the store *)

(** ** deleteEdges, composed *)

Lemma filter_twice {A : Type} (f : A -> bool) (l : list A) :
  filter f (filter f l) = filter f l.
Proof.
  induction l as [|x l IH]; [reflexivity|]. cbn.
  destruct (f x) eqn:E; cbn; [rewrite E|]; now rewrite IH.
Qed.

Lemma filter_swap {A : Type} (f g : A -> bool) (l : list A) :
  filter f (filter g l) = filter g (filter f l).
Proof.
  induction l as [|x l IH]; [reflexivity|]. cbn.
  destruct (g x) eqn:G, (f x) eqn:F; cbn; rewrite ?G, ?F, IH; reflexivity.
Qed.

Lemma filter_all {A : Type} (f : A -> bool) (l : list A) :
  (forall x, In x l -> f x = true) -> filter f l = l.
Proof.
  induction l as [|x l IH]; intros H; [reflexivity|]. cbn.
  rewrite (H x (or_introl eq_refl)), IH; [reflexivity|].
  intros y Hy. apply H. now right.
Qed.

(** X1: deleting the edges of a handle a second time changes nothing, and
    the edges of two handles can be deleted in either order. *)
Theorem deleteEdges_idempotent_commutative (a b : string) (w : World) :
  exec (deleteEdges a) (exec (deleteEdges a) w) = exec (deleteEdges a) w
  /\ exec (deleteEdges a) (exec (deleteEdges b) w)
     = exec (deleteEdges b) (exec (deleteEdges a) w).
Proof.
  unfold exec, deleteEdges, bind, get, set, merge. cbn. split.
  - now rewrite filter_twice.
  - now rewrite filter_swap.
Qed.

(** X2: an edge with no source handle (null or undefined) survives
    deleteEdges for every string, the empty string too; and when no edge has
    the handle, deleteEdges leaves the whole store as it was. *)
Theorem deleteEdges_keeps_edges_without_handle (sourceHandle : string) (w : World) :
  (forall e, In e (edges (state w)) -> edge_sourceHandle e = None ->
             In e (edges (state (exec (deleteEdges sourceHandle) w))))
  /\ ((forall e, In e (edges (state w)) -> edge_sourceHandle e <> Some sourceHandle) ->
      exec (deleteEdges sourceHandle) w = w).
Proof.
  split.
  - intros e He Hn. cbn. apply filter_In. split; [exact He|]. now rewrite Hn.
  - intros H. destruct w as [h [ns es sel]]. cbn in *.
    unfold exec, deleteEdges, bind, get, set, merge. cbn.
    rewrite filter_all; [reflexivity|].
    intros e He. apply handle_differs_spec. now apply H.
Qed.

Lemma deleteEdges_without_handle_witness :
  In (mkEdge "e3" "T" "Q" None None)
     (edges (state (exec (deleteEdges "")
        (mkWorld Example.h0
           (mkState [0; 1; 2] [Example.edgeTP; mkEdge "e3" "T" "Q" None None] None)))))
  /\ exec (deleteEdges "none") Example.w0 = Example.w0.
Proof.
  split.
  - refine (proj1 (deleteEdges_keeps_edges_without_handle "" _) _ _ _).
    + cbn. auto.
    + reflexivity.
  - refine (proj2 (deleteEdges_keeps_edges_without_handle "none" Example.w0) _).
    intros e [<-|[<-|[]]]; discriminate.
Defined.

(** ** getNodes and the list of ids *)

Lemma getNodes_eval (nodeIds : list string) (w : World) :
  eval (getNodes nodeIds) w =
    filter (fun n => includes nodeIds (idOf (heap w) n)) (nodes (state w)).
Proof.
  unfold eval, getNodes, bind, get, readHeap. cbn.
  destruct nodeIds as [|i ids]; cbn; [|reflexivity].
  induction (nodes (state w)) as [|n ns IH]; [reflexivity | exact IH].
Qed.

Lemma includes_ext (xs ys : list string) (x : string) :
  (forall i, In i xs <-> In i ys) -> includes xs x = includes ys x.
Proof.
  intros H. destruct (includes ys x) eqn:E.
  - apply includes_In. apply H. now apply includes_In.
  - destruct (includes xs x) eqn:E'; [|reflexivity].
    apply includes_In, H, includes_In in E'. congruence.
Qed.

(** X3: getNodes reads the list of ids as a set: two lists with the same
    members, in any order and with any repetitions, give the same nodes. *)
Theorem getNodes_ids_as_set (ids ids' : list string) (w : World) :
  (forall i, In i ids <-> In i ids') ->
  eval (getNodes ids) w = eval (getNodes ids') w.
Proof.
  intros H. rewrite !getNodes_eval. apply filter_ext. intros n.
  now apply includes_ext.
Qed.

Lemma getNodes_ids_as_set_witness :
  eval (getNodes ["Q"; "T"; "Q"]) Example.w0 = eval (getNodes ["T"; "Q"]) Example.w0.
Proof.
  apply getNodes_ids_as_set. intros i. cbn. tauto.
Defined.

(** X4: getNodes returns no node exactly when no stored node has one of the
    ids: for the empty list of ids, and for ids that are all unknown. *)
Theorem getNodes_empty_iff (nodeIds : list string) (w : World) :
  eval (getNodes nodeIds) w = [] <->
  (forall n, In n (nodes (state w)) -> ~ In (idOf (heap w) n) nodeIds).
Proof.
  rewrite getNodes_eval. split.
  - intros E n Hn Hi.
    assert (Hin : In n (filter (fun n => includes nodeIds (idOf (heap w) n))
                               (nodes (state w)))).
    { apply filter_In. split; [exact Hn | now apply includes_In]. }
    rewrite E in Hin. contradiction.
  - intros H.
    destruct (filter _ (nodes (state w))) as [|n l] eqn:E; [reflexivity|].
    assert (Hin : In n (filter (fun n => includes nodeIds (idOf (heap w) n))
                               (nodes (state w)))) by (rewrite E; now left).
    apply filter_In in Hin. destruct Hin as [Hn Hi].
    apply includes_In in Hi. exfalso. exact (H n Hn Hi).
Qed.

(** ** clearAllNodeResponses, in place *)

Lemma cleared_twice d : cleared (cleared d) = cleared d.
Proof. reflexivity. Qed.

(** X5: clearAllNodeResponses a second time changes nothing: the state is
    the same and every object of the heap has the same contents. *)
Theorem clearAllNodeResponses_idempotent (w : World) :
  let w1 := exec clearAllNodeResponses w in
  let w2 := exec clearAllNodeResponses w1 in
  state w2 = state w1
  /\ nodeObj (heap w2) = nodeObj (heap w1)
  /\ inputsObj (heap w2) = inputsObj (heap w1)
  /\ forall d, dataObj (heap w2) d = dataObj (heap w1) d.
Proof.
  cbn.
  destruct (forEach_clearResponse (nodes (state w)) (heap w)) as (Hn & Hi & Hd).
  destruct (forEach_clearResponse (nodes (state w))
              (forEach clearResponse (nodes (state w)) (heap w))) as (Hn2 & Hi2 & Hd2).
  cbn in *. repeat split; try assumption.
  intros d. rewrite Hd2, Hn, Hd.
  destruct (existsb _ _); [apply cleared_twice | reflexivity].
Qed.

(** X6: clearAllNodeResponses writes the data objects that the nodes of the
    store hold, in place, and no other: a data object held by a stored node
    has its response emptied for every holder of it, and a data object that
    no stored node holds is as it was. *)
Theorem clearAllNodeResponses_writes_held_data (w : World) (d : loc) :
  let w' := exec clearAllNodeResponses w in
  ((exists n, In n (nodes (state w)) /\ node_data (nodeObj (heap w) n) = d) ->
   dataObj (heap w') d = cleared (dataObj (heap w) d))
  /\ ((forall n, In n (nodes (state w)) -> node_data (nodeObj (heap w) n) <> d) ->
      dataObj (heap w') d = dataObj (heap w) d).
Proof.
  cbn.
  destruct (forEach_clearResponse (nodes (state w)) (heap w)) as (_ & _ & Hd).
  cbn in Hd. rewrite Hd. split.
  - intros [n [Hn E]].
    replace (existsb _ _) with true; [reflexivity|].
    symmetry. apply existsb_exists. exists n. split; [exact Hn|].
    now apply Nat.eqb_eq.
  - intros H. destruct (existsb _ _) eqn:E; [|reflexivity].
    apply existsb_exists in E. destruct E as [n [Hn E]].
    apply Nat.eqb_eq in E. now apply H in E.
Qed.

Lemma clearAllNodeResponses_writes_held_data_witness :
  dataObj (heap (exec clearAllNodeResponses Example.w0)) 1 = cleared Example.dataP
  /\ dataObj (heap (exec clearAllNodeResponses Example.w0)) 3 = Example.dataT'.
Proof.
  split.
  - refine (proj1 (clearAllNodeResponses_writes_held_data Example.w0 1) _).
    exists 1. cbn. auto.
  - refine (proj2 (clearAllNodeResponses_writes_held_data Example.w0 3) _).
    intros n [<-|[<-|[<-|[]]]]; cbn; lia.
Defined.

(** ** clearGraph *)

(** X7: after clearGraph the store is empty and stays so under the
    operations that only rewrite what is stored: updateNode, deleteEdges and
    clearAllNodeResponses leave it as it is, getNodes finds nothing, and the
    inputs invariant holds.  clearGraph itself writes no object. *)
Theorem clearGraph_absorbs
    (updateInput : Heap -> list loc -> string -> Inputs -> Inputs)
    (nodeId sourceHandle : string) (data : loc) (nodeIds : list string) (w : World) :
  let w0 := exec clearGraph w in
  w0 = mkWorld (heap w) (mkState [] [] None)
  /\ exec (updateNode updateInput nodeId data) w0 = w0
  /\ exec (deleteEdges sourceHandle) w0 = w0
  /\ exec clearAllNodeResponses w0 = w0
  /\ eval (getNodes nodeIds) w0 = []
  /\ inputs_backed w0.
Proof.
  cbn zeta. repeat split.
  - rewrite getNodes_eval. reflexivity.
  - intros n sl [].
Qed.

(** ** updateNode: what is selected, what is kept *)

Lemma find_app_first {A : Type} (p : A -> bool) (l1 l2 : list A) :
  find p (l1 ++ l2) =
    match find p l1 with Some x => Some x | None => find p l2 end.
Proof.
  induction l1 as [|x l1 IH]; [reflexivity|]. cbn.
  now destruct (p x).
Qed.

Lemma replaceData_selects (nodeId : string) (data : loc) (ns : list loc) :
  forall h sel,
    snd (forEach (replaceData nodeId data) ns (h, sel)) =
      match lastWithId h nodeId ns with Some n => Some n | None => sel end.
Proof.
  unfold lastWithId.
  induction ns as [|n0 rest IH]; intros h sel; [reflexivity|].
  cbn [forEach fold_left replaceData rev].
  change (fold_left ?f ?l ?a) with (forEach f l a).
  rewrite find_app_first. cbn [find].
  destruct (String.eqb (idOf h n0) nodeId) eqn:E.
  - cbn [spreadData]. rewrite IH.
    match goal with |- context [find (fun n => String.eqb (idOf ?h2 n) nodeId)] =>
      rewrite (find_pointwise (fun n => String.eqb (idOf h2 n) nodeId)
                              (fun n => String.eqb (idOf h n) nodeId)) end.
    + now destruct (find _ (rev rest)).
    + intros n. unfold idOf. cbn. unfold upd.
      destruct (Nat.eqb n n0) eqn:En; [|reflexivity].
      apply Nat.eqb_eq in En. now subst.
  - rewrite IH. now destruct (find _ (rev rest)).
Qed.

(** X8: updateNode(nodeId, data) selects the last node of the store whose
    id is [nodeId], whatever was selected before; the selected node is a
    stored node of that id and holds a copy of [data]. *)
Theorem updateNode_selects_updated_node
    (updateInput : Heap -> list loc -> string -> Inputs -> Inputs)
    (nodeId : string) (data : loc) (w : World) :
  let w' := exec (updateNode updateInput nodeId data) w in
  selectedNode (state w') = lastWithId (heap w) nodeId (nodes (state w))
  /\ forall n, selectedNode (state w') = Some n ->
       In n (nodes (state w'))
       /\ idOf (heap w') n = nodeId
       /\ dataOf (heap w') n = dataObj (heap w) data.
Proof.
  cbn zeta. rewrite updateNode_exec. cbn zeta.
  pose proof (replaceData_spec nodeId data (nodes (state w)) (heap w) None) as R.
  pose proof (replaceData_selects nodeId data (nodes (state w)) (heap w) None) as S.
  set (r := forEach (replaceData nodeId data) (nodes (state w)) (heap w, None)) in *.
  destruct (updateTargets_frame updateInput nodeId (nodes (state w))
              (targetNodes nodeId (edges (state w)) (fst r) (nodes (state w)))
              (fst r)) as (A & B & _).
  cbn [heap state nodes selectedNode].
  assert (Sel : snd r = lastWithId (heap w) nodeId (nodes (state w))).
  { rewrite S. now destruct (lastWithId _ _ _). }
  split; [exact Sel|].
  intros n Hn. rewrite Sel in Hn. unfold lastWithId in Hn.
  apply find_some in Hn. destruct Hn as [Hin Hid].
  apply in_rev in Hin. apply String.eqb_eq in Hid.
  split; [exact Hin|]. split.
  - unfold idOf. rewrite A. rewrite <- Hid. apply (rp_shape _ _ _ _ _ R n).
  - unfold dataOf. rewrite A, B.
    apply (rp_new _ _ _ _ _ R), (rp_hit _ _ _ _ _ R n Hin Hid).
Qed.

Lemma updateNode_selects_witness :
  idOf (heap (exec (updateNode InputsClass.updateInput "P" 3) Example.w1)) 1 = "P".
Proof.
  refine (proj1 (proj2 (proj2 (updateNode_selects_updated_node
            InputsClass.updateInput "P" 3 Example.w1) 1 _))).
  reflexivity.
Defined.

(** X9: updateNode never changes the shape of the graph: the edges, the
    nodes array, the id, type, position and selected flag of every node
    object stay, no node object is created, and getNodes returns what it
    returned before. *)
Theorem updateNode_keeps_graph
    (updateInput : Heap -> list loc -> string -> Inputs -> Inputs)
    (nodeId : string) (data : loc) (nodeIds : list string) (w : World) :
  let w' := exec (updateNode updateInput nodeId data) w in
  edges (state w') = edges (state w)
  /\ nodes (state w') = nodes (state w)
  /\ (forall n, same_shape (nodeObj (heap w') n) (nodeObj (heap w) n))
  /\ nextNode (heap w') = nextNode (heap w)
  /\ eval (getNodes nodeIds) w' = eval (getNodes nodeIds) w.
Proof.
  cbn zeta. rewrite !getNodes_eval. rewrite updateNode_exec. cbn zeta.
  pose proof (replaceData_spec nodeId data (nodes (state w)) (heap w) None) as R.
  set (r := forEach (replaceData nodeId data) (nodes (state w)) (heap w, None)) in *.
  destruct (updateTargets_frame updateInput nodeId (nodes (state w))
              (targetNodes nodeId (edges (state w)) (fst r) (nodes (state w)))
              (fst r)) as (A & _ & C & _).
  cbn [heap state nodes edges].
  assert (Sh : forall n,
    same_shape (nodeObj (forEach (updateTarget updateInput nodeId (nodes (state w)))
                  (targetNodes nodeId (edges (state w)) (fst r) (nodes (state w)))
                  (fst r)) n) (nodeObj (heap w) n)).
  { intros n. rewrite A. apply (rp_shape _ _ _ _ _ R n). }
  repeat split; try apply Sh.
  - rewrite C. apply (rp_nextNode _ _ _ _ _ R).
  - apply filter_ext. intros n. unfold idOf. now rewrite (proj1 (Sh n)).
Qed.

(** ** updateNode: the copy is shallow and the caller's object is kept *)

(** X10: the data object that a caller passes to updateNode is copied, not
    stored: the nodes of the id hold another object, which shares the inputs
    object of the caller's; the caller's object is not written by updateNode,
    and, when no stored node held it, not by a clearAllNodeResponses that
    follows either. *)
Theorem updateNode_copies_callers_data
    (updateInput : Heap -> list loc -> string -> Inputs -> Inputs)
    (nodeId : string) (data : loc) (w : World) :
  data < nextData (heap w) ->
  let w1 := exec (updateNode updateInput nodeId data) w in
  let w2 := exec clearAllNodeResponses w1 in
  (forall n, In n (nodes (state w)) -> idOf (heap w) n = nodeId ->
     node_data (nodeObj (heap w1) n) <> data
     /\ inputsRefOf (heap w1) n = data_inputs (dataObj (heap w) data))
  /\ dataObj (heap w1) data = dataObj (heap w) data
  /\ ((forall n, In n (nodes (state w)) -> node_data (nodeObj (heap w) n) <> data) ->
      dataObj (heap w2) data = dataObj (heap w) data).
Proof.
  intros Hdata. cbn zeta.
  assert (E1 : exists h1,
    exec (updateNode updateInput nodeId data) w
      = mkWorld h1 (mkState (nodes (state w)) (edges (state w))
                      (snd (forEach (replaceData nodeId data) (nodes (state w))
                              (heap w, None))))
    /\ (forall n, In n (nodes (state w)) -> idOf (heap w) n = nodeId ->
          nextData (heap w) <= node_data (nodeObj h1 n)
          /\ dataObj h1 (node_data (nodeObj h1 n)) = dataObj (heap w) data)
    /\ (forall n, idOf (heap w) n <> nodeId -> nodeObj h1 n = nodeObj (heap w) n)
    /\ (forall d, d < nextData (heap w) -> dataObj h1 d = dataObj (heap w) d)).
  { rewrite updateNode_exec. cbn zeta.
    pose proof (replaceData_spec nodeId data (nodes (state w)) (heap w) None) as R.
    set (r := forEach (replaceData nodeId data) (nodes (state w)) (heap w, None)) in *.
    destruct (updateTargets_frame updateInput nodeId (nodes (state w))
                (targetNodes nodeId (edges (state w)) (fst r) (nodes (state w)))
                (fst r)) as (A & B & _).
    eexists. split; [reflexivity|]. rewrite A, B. repeat split.
    - apply (rp_hit _ _ _ _ _ R n H H0).
    - apply (rp_new _ _ _ _ _ R), (rp_hit _ _ _ _ _ R n H H0).
    - intros n Hn. apply (rp_miss _ _ _ _ _ R). now right.
    - apply (rp_old _ _ _ _ _ R). }
  destruct E1 as (h1 & -> & Hhit & Hmiss & Hold).
  cbn [heap state nodes]. split; [|split].
  - intros n Hn Hid. destruct (Hhit n Hn Hid) as [Hfresh Hcopy]. split; [lia|].
    unfold inputsRefOf, dataOf. now rewrite Hcopy.
  - now apply Hold.
  - intros Hnot.
    destruct (forEach_clearResponse (nodes (state w)) h1) as (_ & _ & Hd).
    cbn in Hd. cbn. rewrite Hd.
    destruct (existsb _ _) eqn:E; [|now apply Hold].
    apply existsb_exists in E. destruct E as [n [Hn E]]. apply Nat.eqb_eq in E.
    exfalso. destruct (String.eqb (idOf (heap w) n) nodeId) eqn:Eid.
    + apply String.eqb_eq in Eid. destruct (Hhit n Hn Eid) as [Hfresh _]. lia.
    + apply String.eqb_neq in Eid. rewrite (Hmiss n Eid) in E.
      now apply (Hnot n Hn).
Qed.

Lemma updateNode_copies_witness :
  3 < nextData (heap Example.w0)
  /\ dataObj (heap (exec clearAllNodeResponses
                      (exec (updateNode InputsClass.updateInput "T" 3) Example.w0))) 3
     = Example.dataT'.
Proof.
  assert (L : 3 < nextData (heap Example.w0)) by (cbn; lia).
  split; [exact L|].
  refine (proj2 (proj2 (updateNode_copies_callers_data
            InputsClass.updateInput "T" 3 Example.w0 L)) _).
  intros n [<-|[<-|[<-|[]]]]; cbn; lia.
Defined.

(** ** updateInputExample *)

Lemma changeExample_no_match
    (handle : string -> string -> Z -> Inputs -> Inputs)
    (nodeId inputId value : string) (index : Z) (ns : list loc) :
  forall h sel,
    (forall n, In n ns -> idOf h n <> nodeId) ->
    forEach (changeExample handle nodeId inputId value index) ns (h, sel) = (h, sel).
Proof.
  induction ns as [|n0 rest IH]; intros h sel Hns; [reflexivity|].
  cbn [forEach fold_left changeExample].
  change (fold_left ?f ?l ?a) with (forEach f l a).
  destruct (String.eqb (idOf h n0) nodeId) eqn:E.
  - apply String.eqb_eq in E. exfalso. apply (Hns n0); [now left | exact E].
  - apply IH. intros n Hn. apply Hns. now right.
Qed.

Lemma changeExample_spec
    (handle : string -> string -> Z -> Inputs -> Inputs)
    (nodeId inputId value : string) (index : Z) (ns : list loc) :
  forall h sel,
    let r := forEach (changeExample handle nodeId inputId value index) ns (h, sel) in
    nodeObj (fst r) = nodeObj h
    /\ dataObj (fst r) = dataObj h
    /\ nextNode (fst r) = nextNode h
    /\ nextData (fst r) = nextData h
    /\ (forall i,
          (forall n, In n ns -> idOf h n = nodeId -> inputsRefOf h n <> i) ->
          inputsObj (fst r) i = inputsObj h i)
    /\ snd r = match lastWithId h nodeId ns with Some n => Some n | None => sel end.
Proof.
  unfold lastWithId.
  induction ns as [|n0 rest IH]; intros h sel; cbn zeta.
  - repeat split.
  - cbn [forEach fold_left changeExample rev].
    change (fold_left ?f ?l ?a) with (forEach f l a).
    rewrite find_app_first. cbn [find].
    destruct (String.eqb (idOf h n0) nodeId) eqn:E.
    + match goal with |- context [forEach _ rest (?h2, ?s2)] =>
        destruct (IH h2 s2) as (A & B & C & D & F & S) end.
      rewrite A, B, C, D, S. cbn [setInputsObj nodeObj dataObj nextNode nextData].
      repeat split.
      * intros i Hi. rewrite F.
        -- cbn. apply upd_other. intros ->.
           apply (Hi n0); [now left | now apply String.eqb_eq | reflexivity].
        -- intros n Hn Hid. apply Hi; [now right | exact Hid].
      * change (find (fun n => String.eqb (idOf ?h2 n) nodeId) (rev rest))
          with (find (fun n => String.eqb (idOf h n) nodeId) (rev rest)).
        now destruct (find _ (rev rest)).
    + destruct (IH h sel) as (A & B & C & D & F & S).
      rewrite A, B, C, D, S. repeat split.
      * intros i Hi. apply F. intros n Hn Hid. apply Hi; [now right | exact Hid].
      * now destruct (find _ (rev rest)).
Qed.

(** X11: updateInputExample for an id that no stored node has writes no
    object and keeps the nodes and the edges, but sets the selection to
    null. *)
Theorem updateInputExample_unknown_id
    (handle : string -> string -> Z -> Inputs -> Inputs)
    (nodeId inputId value : string) (index : Z) (w : World) :
  (forall n, In n (nodes (state w)) -> idOf (heap w) n <> nodeId) ->
  exec (updateInputExample handle nodeId inputId value index) w
    = mkWorld (heap w) (mkState (nodes (state w)) (edges (state w)) None).
Proof.
  intros Hno. unfold exec, updateInputExample, bind, get, onHeap, set, merge.
  cbn. now rewrite (changeExample_no_match handle nodeId inputId value index
                      (nodes (state w)) (heap w) None Hno).
Qed.

Lemma updateInputExample_unknown_id_witness :
  selectedNode (state (exec (updateInputExample (fun _ _ _ this => this)
                               "X" "in" "v" 0%Z) Example.w1)) = None.
Proof.
  rewrite (updateInputExample_unknown_id (fun _ _ _ this => this) "X" "in" "v" 0%Z
             Example.w1); [reflexivity|].
  intros n [<-|[<-|[<-|[]]]]; cbn; discriminate.
Defined.

(** X12: updateInputExample writes inputs objects only, and only those of
    the stored nodes whose id is [nodeId]: the node objects and the data
    objects are the same objects with the same fields, none is created, the
    nodes array and the edges are kept; and it selects the last stored node
    of the id. *)
Theorem updateInputExample_writes_inputs_only
    (handle : string -> string -> Z -> Inputs -> Inputs)
    (nodeId inputId value : string) (index : Z) (w : World) :
  let w' := exec (updateInputExample handle nodeId inputId value index) w in
  nodes (state w') = nodes (state w)
  /\ edges (state w') = edges (state w)
  /\ selectedNode (state w') = lastWithId (heap w) nodeId (nodes (state w))
  /\ nodeObj (heap w') = nodeObj (heap w)
  /\ dataObj (heap w') = dataObj (heap w)
  /\ nextData (heap w') = nextData (heap w)
  /\ (forall i,
        (forall n, In n (nodes (state w)) -> idOf (heap w) n = nodeId ->
                   inputsRefOf (heap w) n <> i) ->
        inputsObj (heap w') i = inputsObj (heap w) i).
Proof.
  cbn zeta. unfold exec, updateInputExample, bind, get, onHeap, set, merge.
  destruct (changeExample_spec handle nodeId inputId value index
              (nodes (state w)) (heap w) None) as (A & B & C & D & F & S).
  cbn zeta in *. cbn [state heap].
  destruct (forEach (changeExample handle nodeId inputId value index)
              (nodes (state w)) (heap w, None)) as [h1 sel].
  cbn [fst snd] in *. cbn.
  repeat split; try assumption.
  rewrite S. now destruct (lastWithId _ _ _).
Qed.

Lemma updateInputExample_writes_inputs_only_witness :
  inputsObj (heap (exec (updateInputExample (fun _ _ _ _ => []) "P" "in" "v" 0%Z)
                        Example.w0)) 2 = [Example.slotQ].
Proof.
  refine (proj2 (proj2 (proj2 (proj2 (proj2 (proj2
    (updateInputExample_writes_inputs_only (fun _ _ _ _ => []) "P" "in" "v" 0%Z
       Example.w0)))))) 2 _).
  intros n [<-|[<-|[<-|[]]]] Hid; cbn; try lia; discriminate.
Defined.

(** ** onNodeDragStop *)

(** X13: onNodeDragStop selects the node it is given and changes nothing
    else; a batch of node changes that follows and has a 'remove' change
    with the id of that node leaves nothing selected, whatever
    applyNodeChanges computes. *)
Theorem onNodeDragStop_then_remove
    (applyNodeChanges : list NodeChange -> list loc -> Heap -> Heap * list loc)
    (node : loc) (changes : list NodeChange) (w : World) :
  In (NodeRemove (idOf (heap w) node)) changes ->
  let w1 := exec (onNodeDragStop node) w in
  w1 = mkWorld (heap w) (mkState (nodes (state w)) (edges (state w)) (Some node))
  /\ selectedNode (state (exec (onNodesChange applyNodeChanges changes) w1)) = None.
Proof.
  intros Hin. cbn zeta. split; [reflexivity|].
  unfold exec, onNodesChange, onNodeDragStop, bind, get, readHeap, onHeap, set. cbn.
  destruct (applyNodeChanges changes (nodes (state w)) (heap w)) as [h' applied].
  replace (existsb (removesSelected (heap w) (Some node)) changes) with true;
    [reflexivity|].
  symmetry. apply removesSelected_spec. exists (idOf (heap w) node). now split.
Qed.

Lemma onNodeDragStop_then_remove_witness :
  In (NodeRemove "P") [NodePosition "T" None; NodeRemove "P"]
  /\ selectedNode (state (exec (onNodesChange ReactFlow.applyNodeChanges
                                  [NodePosition "T" None; NodeRemove "P"])
                               (exec (onNodeDragStop 1) Example.w0))) = None.
Proof.
  assert (H : In (NodeRemove (idOf (heap Example.w0) 1))
                 [NodePosition "T" None; NodeRemove "P"]) by (cbn; auto).
  split; [exact H|].
  exact (proj2 (onNodeDragStop_then_remove ReactFlow.applyNodeChanges 1
                  [NodePosition "T" None; NodeRemove "P"] Example.w0 H)).
Defined.

(** ** updateNode, composed *)

(** updateNode as one step on the world. *)
Lemma updateNode_world
    (updateInput : Heap -> list loc -> string -> Inputs -> Inputs)
    (nodeId : string) (data : loc) (w : World) :
  exists h1,
    exec (updateNode updateInput nodeId data) w
      = mkWorld h1 (mkState (nodes (state w)) (edges (state w))
                      (lastWithId (heap w) nodeId (nodes (state w))))
    /\ (forall n, same_shape (nodeObj h1 n) (nodeObj (heap w) n))
    /\ (forall n, In n (nodes (state w)) -> idOf (heap w) n = nodeId ->
          dataObj h1 (node_data (nodeObj h1 n)) = dataObj (heap w) data)
    /\ (forall d, d < nextData (heap w) -> dataObj h1 d = dataObj (heap w) d)
    /\ ((forall e, In e (edges (state w)) -> edge_source e <> nodeId) ->
        inputsObj h1 = inputsObj (heap w)).
Proof.
  rewrite updateNode_exec. cbn zeta.
  pose proof (replaceData_spec nodeId data (nodes (state w)) (heap w) None) as R.
  pose proof (replaceData_selects nodeId data (nodes (state w)) (heap w) None) as S.
  set (r := forEach (replaceData nodeId data) (nodes (state w)) (heap w, None)) in *.
  destruct (updateTargets_frame updateInput nodeId (nodes (state w))
              (targetNodes nodeId (edges (state w)) (fst r) (nodes (state w)))
              (fst r)) as (A & B & _).
  eexists. split; [|rewrite A, B; split; [|split; [|split]]].
  - f_equal. f_equal. rewrite S. now destruct (lastWithId _ _ _).
  - apply (rp_shape _ _ _ _ _ R).
  - intros n Hn Hid. apply (rp_new _ _ _ _ _ R), (rp_hit _ _ _ _ _ R n Hn Hid).
  - apply (rp_old _ _ _ _ _ R).
  - intros He.
    rewrite (targetNodes_no_edges nodeId (edges (state w)) (fst r) (nodes (state w)) He).
    apply (rp_inputs _ _ _ _ _ R).
Qed.

(** X17: of two updateNode calls for the same id, the last one wins: the
    nodes of the id hold a copy of the data of the second call, and the
    selection is the one of a single call. *)
Theorem updateNode_last_write_wins
    (updateInput : Heap -> list loc -> string -> Inputs -> Inputs)
    (nodeId : string) (d1 d2 : loc) (w : World) (n : loc) :
  d2 < nextData (heap w) ->
  In n (nodes (state w)) ->
  idOf (heap w) n = nodeId ->
  let w2 := exec (updateNode updateInput nodeId d2)
                 (exec (updateNode updateInput nodeId d1) w) in
  dataOf (heap w2) n = dataObj (heap w) d2
  /\ selectedNode (state w2) = lastWithId (heap w) nodeId (nodes (state w)).
Proof.
  intros Hd Hn Hid. cbn zeta.
  destruct (updateNode_world updateInput nodeId d1 w) as (h1 & -> & Sh1 & _ & Old1 & _).
  destruct (updateNode_world updateInput nodeId d2
              (mkWorld h1 (mkState (nodes (state w)) (edges (state w))
                             (lastWithId (heap w) nodeId (nodes (state w))))))
    as (h2 & -> & _ & Hit2 & _).
  cbn [heap state nodes selectedNode] in *.
  assert (Hids : forall m, idOf h1 m = idOf (heap w) m) by (intros m; apply (Sh1 m)).
  split.
  - unfold dataOf. rewrite Hit2; [now apply Old1 | exact Hn | now rewrite Hids].
  - unfold lastWithId. apply find_pointwise. intros m. now rewrite Hids.
Qed.

Lemma updateNode_last_write_wins_witness :
  dataOf (heap (exec (updateNode InputsClass.updateInput "T" 3)
                     (exec (updateNode InputsClass.updateInput "T" 1) Example.w0))) 0
    = Example.dataT'.
Proof.
  refine (proj1 (updateNode_last_write_wins InputsClass.updateInput "T" 1 3
                   Example.w0 0 _ _ _)).
  - cbn. lia.
  - cbn. auto.
  - reflexivity.
Defined.

(** X18: updateNode propagates along the edges stored at the time of the
    call: with no edge whose source is [nodeId] it writes no inputs object;
    so after deleteEdges has removed every edge from [nodeId], an updateNode
    for [nodeId] leaves the inputs that the former targets recorded as they
    are. *)
Theorem updateNode_without_edges_writes_no_inputs
    (updateInput : Heap -> list loc -> string -> Inputs -> Inputs)
    (nodeId sourceHandle : string) (data : loc) (w : World) :
  ((forall e, In e (edges (state w)) -> edge_source e <> nodeId) ->
   inputsObj (heap (exec (updateNode updateInput nodeId data) w))
     = inputsObj (heap w))
  /\ ((forall e, In e (edges (state w)) -> edge_source e = nodeId ->
                 edge_sourceHandle e = Some sourceHandle) ->
      inputsObj (heap (exec (updateNode updateInput nodeId data)
                            (exec (deleteEdges sourceHandle) w)))
        = inputsObj (heap w)).
Proof.
  split.
  - intros He.
    destruct (updateNode_world updateInput nodeId data w) as (h1 & -> & _ & _ & _ & I).
    now apply I.
  - intros He.
    destruct (updateNode_world updateInput nodeId data (exec (deleteEdges sourceHandle) w))
      as (h1 & -> & _ & _ & _ & I).
    cbn [heap]. apply I. cbn. intros e Hin Hs.
    apply filter_In in Hin. destruct Hin as [Hin Hd].
    apply handle_differs_spec in Hd. apply Hd. now apply He.
Qed.

Lemma updateNode_without_edges_witness :
  inputsObj (heap (exec (updateNode InputsClass.updateInput "T" 3)
                        (exec (deleteEdges "out") Example.w0))) 1
    = [Example.slotP].
Proof.
  assert (E := proj2 (updateNode_without_edges_writes_no_inputs
                        InputsClass.updateInput "T" "out" 3 Example.w0)).
  rewrite E; [reflexivity|].
  intros e [<-|[<-|[]]] Hs; [reflexivity | discriminate].
Defined.

(** * The edge function that stores a user's API key *)

(** X14: the function calls insert_user_api_key exactly when the request is
    not an OPTIONS request, a user is authenticated and the body is a JSON
    value other than null; the call then carries the id of that user, the
    api_key of the body and the secret of the environment (the empty string
    when it is not set), and it is the only one.  For a body that is not
    JSON or is null, with a user authenticated, the promise of the handler
    is rejected: no call is made and nothing is answered. *)
Theorem handler_stores_for_authenticated_user_only
    (Err : Type) (stringify : Err -> string)
    (method : string) (env : ApiKeyFunction.Env Err) (args : ApiKeyFunction.RpcArgs) :
  let events := fst (ApiKeyFunction.handler stringify method env) in
  (In (ApiKeyFunction.Rpc args) events <->
     method <> "OPTIONS"
     /\ exists user api_key,
          ApiKeyFunction.env_user env = Some user
          /\ ApiKeyFunction.env_json env = ApiKeyFunction.BodyRead api_key
          /\ args = ApiKeyFunction.mkRpcArgs api_key
                      (match ApiKeyFunction.env_secret env with
                       | Some k => k | None => "" end)
                      (ApiKeyFunction.user_id user))
  /\ List.length (filter ApiKeyFunction.isRpc events) <= 1
  /\ (snd (ApiKeyFunction.handler stringify method env) = ApiKeyFunction.Rejected <->
      method <> "OPTIONS"
      /\ ApiKeyFunction.env_user env <> None
      /\ (ApiKeyFunction.env_json env = ApiKeyFunction.BodyRejected
          \/ ApiKeyFunction.env_json env = ApiKeyFunction.BodyNull))
  /\ (snd (ApiKeyFunction.handler stringify method env) = ApiKeyFunction.Rejected ->
      filter ApiKeyFunction.isRpc events = []).
Proof.
  cbn zeta. unfold ApiKeyFunction.handler.
  destruct (String.eqb method "OPTIONS") eqn:M.
  - apply String.eqb_eq in M. cbn. split; [|split; [lia|split]].
    + split; [intros []|]. intros [N _]. contradiction.
    + split; [discriminate|]. intros [N _]. contradiction.
    + reflexivity.
  - apply String.eqb_neq in M.
    destruct (ApiKeyFunction.env_user env) as [user|].
    + destruct (ApiKeyFunction.env_json env) as [| |api_key].
      * cbn. split; [|split; [lia|split]].
        -- split; [intros [H|[H|[]]]; discriminate|].
           intros [_ (u & k & _ & H & _)]. discriminate.
        -- split; [|reflexivity]. intros _. split; [exact M|].
           split; [discriminate | now left].
        -- reflexivity.
      * cbn. split; [|split; [lia|split]].
        -- split; [intros [H|[H|[]]]; discriminate|].
           intros [_ (u & k & _ & H & _)]. discriminate.
        -- split; [|reflexivity]. intros _. split; [exact M|].
           split; [discriminate | now right].
        -- reflexivity.
      * match goal with |- context [ApiKeyFunction.env_rpc env ?a] =>
          set (a0 := a); destruct (ApiKeyFunction.env_rpc env a0) end;
        cbn; (split; [|split; [lia|split]]); try discriminate.
        -- split.
           ++ intros [H|[H|[H|[]]]]; try discriminate. injection H as <-.
              split; [exact M|]. now exists user, api_key.
           ++ intros [_ (u & k & [= <-] & [= <-] & ->)]. auto.
        -- split; [discriminate|]. intros (_ & _ & [H|H]); discriminate.
        -- split.
           ++ intros [H|[H|[H|[]]]]; try discriminate. injection H as <-.
              split; [exact M|]. now exists user, api_key.
           ++ intros [_ (u & k & [= <-] & [= <-] & ->)]. auto.
        -- split; [discriminate|]. intros (_ & _ & [H|H]); discriminate.
    + cbn. split; [|split; [lia|split]].
      * split; [intros [H|[]]; discriminate|].
        intros [_ (u & k & H & _)]. discriminate.
      * split; [discriminate|]. intros (_ & N & _). now contradiction N.
      * reflexivity.
Qed.

Lemma handler_stores_witness :
  filter ApiKeyFunction.isRpc
    (fst (ApiKeyFunction.handler (fun e : string => e) "POST"
            (ApiKeyFunction.mkEnv (Some (ApiKeyFunction.mkUser "u1"))
               ApiKeyFunction.BodyNull None (fun _ => None))))
  = [].
Proof.
  refine (proj2 (proj2 (proj2 (handler_stores_for_authenticated_user_only
    string (fun e : string => e) "POST"
    (ApiKeyFunction.mkEnv (Some (ApiKeyFunction.mkUser "u1"))
       ApiKeyFunction.BodyNull None (fun _ => None))
    (ApiKeyFunction.mkRpcArgs None "" "u1")))) eq_refl).
Defined.

(** X15: what a response tells: the status is 200, 401 or 500; 401 is
    answered without any call of insert_user_api_key, when no user is
    authenticated; 500 carries the error of the call; and a 200 to a request
    other than OPTIONS is answered only after a call that gave no error.  An
    OPTIONS request is answered 200 before anything is awaited, authenticated
    or not. *)
Theorem handler_responses
    (Err : Type) (stringify : Err -> string)
    (method : string) (env : ApiKeyFunction.Env Err) (r : ApiKeyFunction.Response) :
  snd (ApiKeyFunction.handler stringify method env) = ApiKeyFunction.Responded r ->
  let events := fst (ApiKeyFunction.handler stringify method env) in
  (ApiKeyFunction.status r = 200 \/ ApiKeyFunction.status r = 401
   \/ ApiKeyFunction.status r = 500)
  /\ (ApiKeyFunction.status r = 401 ->
      ApiKeyFunction.env_user env = None
      /\ filter ApiKeyFunction.isRpc events = [])
  /\ (ApiKeyFunction.status r = 500 ->
      exists args error,
        In (ApiKeyFunction.Rpc args) events
        /\ ApiKeyFunction.env_rpc env args = Some error
        /\ ApiKeyFunction.body r = stringify error)
  /\ (ApiKeyFunction.status r = 200 -> method <> "OPTIONS" ->
      exists args,
        In (ApiKeyFunction.Rpc args) events
        /\ ApiKeyFunction.env_rpc env args = None)
  /\ (method = "OPTIONS" ->
      events = [] /\ r = ApiKeyFunction.mkResponse 200 "ok" ApiKeyFunction.CorsHeaders).
Proof.
  cbn zeta. unfold ApiKeyFunction.handler.
  destruct (String.eqb method "OPTIONS") eqn:M.
  - apply String.eqb_eq in M. cbn. intros [= <-]. cbn.
    repeat split; auto; try discriminate. intros _ N. contradiction.
  - apply String.eqb_neq in M.
    destruct (ApiKeyFunction.env_user env) as [user|].
    + destruct (ApiKeyFunction.env_json env) as [| |api_key];
        [discriminate | discriminate |].
      match goal with |- context [ApiKeyFunction.env_rpc env ?a] =>
        set (a0 := a); destruct (ApiKeyFunction.env_rpc env a0) as [error|] eqn:R end;
      cbn; intros [= <-]; cbn; repeat split; auto; try discriminate;
        try contradiction.
      * intros _. exists a0, error. cbn. auto.
      * intros _ _. exists a0. cbn. auto.
    + cbn. intros [= <-]. cbn. repeat split; auto; try discriminate;
        contradiction.
Qed.

Lemma handler_responses_witness :
  ApiKeyFunction.status (ApiKeyFunction.mkResponse 401 "Not authorized"
                           ApiKeyFunction.JsonAndCorsHeaders) = 401
  /\ filter ApiKeyFunction.isRpc
       (fst (ApiKeyFunction.handler (fun e : string => e) "POST"
               (ApiKeyFunction.mkEnv None (ApiKeyFunction.BodyRead (Some "sk-1"))
                  None (fun _ => None))))
     = [].
Proof.
  split; [reflexivity|].
  refine (proj2 (proj1 (proj2 (handler_responses string (fun e : string => e) "POST"
    (ApiKeyFunction.mkEnv None (ApiKeyFunction.BodyRead (Some "sk-1"))
       None (fun _ => None))
    (ApiKeyFunction.mkResponse 401 "Not authorized" ApiKeyFunction.JsonAndCorsHeaders)
    eq_refl)) eq_refl)).
Defined.

(** * The OpenAI key prompt *)


